(** * zapguard: the circuit-breaker engine and its remote persistence layer

    A shallow embedding of [src/circuit-breaker.ts], [src/remote-circuit-breaker.ts],
    [src/types.ts] and [src/errors/*.ts], followed by the properties of the
    specification that concern them.

    Modelling conventions.
    - A TypeScript [number] holding a counter, a threshold or an epoch
      timestamp is an integer [Z]; [x + 1], [a - b] and [a >= b] are exact on
      integer-valued doubles below 2^53, which is where all of them live.
    - An optional field ([openedAt?: number]) is an [option]: a missing field
      and a field holding [undefined] read the same and are both [None].
    - A method is a computation in the monad [M St]: it threads the mutable
      object [St] and completes either normally or by throwing; a [throw]
      keeps the state reached so far, as in JavaScript.
    - [Date.now()] is the argument [now] of the method that reads the clock.
    - A hook is a callback that observes its arguments and either returns or
      throws; it does not call back into the breaker. *)

From stdpp Require Import gmap strings list pretty.
From Stdlib Require Import ZArith Lia.

Local Open Scope Z_scope.

(* ===================================================================== *)
(** ** Errors ([src/errors/*.ts]) *)
(* ===================================================================== *)

(** The values the code throws.  [Error] is the built-in class, the other
    three are its subclasses declared in [src/errors]. *)
Inductive JsError : Type :=
| Error (message : string)
| ConcurrencyConflictError (key : string)
| ItemAlreadyExistsError (key : string)
| StorageOperationError (message : string) (cause : JsError).

(** [err instanceof Errors.ConcurrencyConflictError] *)
Definition instanceof_ConcurrencyConflictError (err : JsError) : bool :=
  match err with ConcurrencyConflictError _ => true | _ => false end.

(** [err instanceof Errors.ItemAlreadyExistsError] *)
Definition instanceof_ItemAlreadyExistsError (err : JsError) : bool :=
  match err with ItemAlreadyExistsError _ => true | _ => false end.

(* ===================================================================== *)
(** ** Completions and the state-and-exception monad *)
(* ===================================================================== *)

Inductive Completion (A : Type) : Type :=
| Return (a : A)
| Throw (err : JsError).
Arguments Return {A} a.
Arguments Throw {A} err.

Definition M (St A : Type) : Type := St -> St * Completion A.

Definition ret {St A} (a : A) : M St A := fun s => (s, Return a).

Definition throw {St A} (err : JsError) : M St A := fun s => (s, Throw err).

Definition bind {St A B} (m : M St A) (k : A -> M St B) : M St B :=
  fun s =>
    match m s with
    | (s', Return a) => k a s'
    | (s', Throw err) => (s', Throw err)
    end.

(** [try { body } catch (err) { handler }] *)
Definition try_catch {St A} (body : M St A) (handler : JsError -> M St A) : M St A :=
  fun s =>
    match body s with
    | (s', Throw err) => handler err s'
    | done => done
    end.

Definition gets {St A} (f : St -> A) : M St A := fun s => (s, Return (f s)).

Definition modify {St} (f : St -> St) : M St unit := fun s => (f s, Return tt).

(** Calling a callback that has no access to the object: the state is kept
    and the callback's completion becomes the computation's. *)
Definition call {St A} (c : Completion A) : M St A := fun s => (s, c).

Notation "'let*' x ':=' m 'in' k" := (bind m (fun x => k))
  (at level 10, x name, m at level 100, k at level 200).
Notation "m '>>' k" := (bind m (fun _ => k))
  (at level 61, left associativity).

(* ===================================================================== *)
(** ** Data model ([src/types.ts]) *)
(* ===================================================================== *)

Inductive CircuitBreakerStatus : Type := OPEN | CLOSED | HALF_OPEN.

Global Instance CircuitBreakerStatus_eq_dec : EqDecision CircuitBreakerStatus.
Proof. solve_decision. Defined.

Record CircuitBreakerOptions : Type := {
  failureThreshold : Z;
  successThreshold : Z;
  resetTimeoutMs : Z
}.

Record CircuitBreakerState : Type := {
  status : CircuitBreakerStatus;
  failureCount : Z;
  successCount : Z;
  openedAt : option Z
}.

Global Instance CircuitBreakerState_eq_dec : EqDecision CircuitBreakerState.
Proof. solve_decision. Defined.

Record VersionedStorageValue : Type := {
  value : CircuitBreakerState;
  version : string
}.

Record StateChangeMeta : Type := { meta_name : option string }.

Record ErrorMeta : Type := { err_name : option string; operation : string }.

Record CircuitBreakerHooks : Type := {
  onStateChange :
    option (CircuitBreakerState -> CircuitBreakerState -> StateChangeMeta -> Completion unit);
  onError : option (JsError -> ErrorMeta -> Completion unit)
}.

(* ===================================================================== *)
(** ** The engine ([src/circuit-breaker.ts]) *)
(* ===================================================================== *)

(** The fields of a [CircuitBreaker] instance. *)
Record CircuitBreaker : Type := {
  state : CircuitBreakerState;
  options : CircuitBreakerOptions;
  name : option string;
  hooks : option CircuitBreakerHooks
}.

(** The field initialiser of [state]. *)
Definition initialState : CircuitBreakerState :=
  {| status := CLOSED; failureCount := 0; successCount := 0; openedAt := None |}.

(** [new CircuitBreaker(options, name, hooks)] *)
Definition new_CircuitBreaker (options : CircuitBreakerOptions) (name : option string)
    (hooks : option CircuitBreakerHooks) : CircuitBreaker :=
  {| state := initialState; options := options; name := name; hooks := hooks |}.

(** [this.state = v] *)
Definition assign_state (v : CircuitBreakerState) (this : CircuitBreaker) : CircuitBreaker :=
  {| state := v; options := options this; name := name this; hooks := hooks this |}.

(** [this.hooks?.onStateChange?.(prev, next, { name: this.name })] *)
Definition call_onStateChange (prev next : CircuitBreakerState) : M CircuitBreaker unit :=
  fun this =>
    match hooks this with
    | Some h =>
        match onStateChange h with
        | Some f => call (f prev next {| meta_name := name this |}) this
        | None => ret tt this
        end
    | None => ret tt this
    end.

(** [this.hooks?.onError?.(err, { name: this.name, operation })] *)
Definition call_onError (err : JsError) (op : string) : M CircuitBreaker unit :=
  fun this =>
    match hooks this with
    | Some h =>
        match onError h with
        | Some f => call (f err {| err_name := name this; operation := op |}) this
        | None => ret tt this
        end
    | None => ret tt this
    end.

(** [setState(next)]: the copy [{ ...next }] of a record of primitives is the
    record itself at the level of values. *)
Definition setState (next : CircuitBreakerState) : M CircuitBreaker unit :=
  let* prev := gets state in
  modify (assign_state next) >>
  let* cur := gets state in
  call_onStateChange prev cur.

(** [getState()] *)
Definition getState : M CircuitBreaker CircuitBreakerState := gets state.

Definition isOpen (this : CircuitBreaker) : bool :=
  bool_decide (status (state this) = OPEN).

Definition isClosed (this : CircuitBreaker) : bool :=
  bool_decide (status (state this) = CLOSED).

Definition isHalfOpen (this : CircuitBreaker) : bool :=
  bool_decide (status (state this) = HALF_OPEN).

(** Truthiness of [this.state.openedAt]: [undefined] and [0] are falsy. *)
Definition truthy (x : option Z) : bool :=
  match x with
  | Some t => negb (t =? 0)
  | None => false
  end.

(** [Date.now() - this.state.openedAt >= this.options.resetTimeoutMs], read
    where [openedAt] is a number. *)
Definition timeout_elapsed (now : Z) (this : CircuitBreaker) : bool :=
  match openedAt (state this) with
  | Some t => resetTimeoutMs (options this) <=? now - t
  | None => false
  end.

Definition assertCanExecute (now : Z) : M CircuitBreaker unit :=
  try_catch
    (fun this =>
       if isOpen this then
         if truthy (openedAt (state this)) && timeout_elapsed now this then
           setState {| status := HALF_OPEN;
                       failureCount := 0;
                       successCount := 0;
                       openedAt := openedAt (state this) |} this
         else throw (Error "Circuit breaker is open") this
       else ret tt this)
    (fun err => call_onError err "assertCanExecute" >> throw err).

Definition recordSuccess : M CircuitBreaker unit :=
  try_catch
    (fun this =>
       if isHalfOpen this then
         let successCount' := successCount (state this) + 1 in
         if successThreshold (options this) <=? successCount' then
           setState {| status := CLOSED;
                       failureCount := 0;
                       successCount := 0;
                       openedAt := None |} this
         else
           setState {| status := status (state this);
                       failureCount := failureCount (state this);
                       successCount := successCount';
                       openedAt := openedAt (state this) |} this
       else ret tt this)
    (fun err => call_onError err "recordSuccess" >> throw err).

Definition recordFailure (now : Z) : M CircuitBreaker unit :=
  try_catch
    (fun this =>
       if isClosed this || isHalfOpen this then
         let failureCount' := failureCount (state this) + 1 in
         if failureThreshold (options this) <=? failureCount' then
           setState {| status := OPEN;
                       failureCount := 0;
                       successCount := 0;
                       openedAt := Some now |} this
         else
           setState {| status := status (state this);
                       failureCount := failureCount';
                       successCount := successCount (state this);
                       openedAt := openedAt (state this) |} this
       else ret tt this)
    (fun err => call_onError err "recordFailure" >> throw err).

(* ===================================================================== *)
(** ** Call sequences *)
(* ===================================================================== *)

(** The three state-changing entry points, each with the clock reading it
    would make. *)
Inductive Call : Type :=
| CallAssertCanExecute (now : Z)
| CallRecordSuccess
| CallRecordFailure (now : Z).

Definition perform (c : Call) : M CircuitBreaker unit :=
  match c with
  | CallAssertCanExecute now => assertCanExecute now
  | CallRecordSuccess => recordSuccess
  | CallRecordFailure now => recordFailure now
  end.

(** A caller issuing the calls one after the other on the same instance,
    whether or not one of them throws. *)
Fixpoint run (cs : list Call) (this : CircuitBreaker) : CircuitBreaker :=
  match cs with
  | [] => this
  | c :: rest => run rest (fst (perform c this))
  end.

(** [recordFailure()] called once per clock reading in [nows]. *)
Definition recordFailures (nows : list Z) : CircuitBreaker -> CircuitBreaker :=
  run (CallRecordFailure <$> nows).

(** Neither supplied hook throws, whatever it is called with. *)
Definition hooks_do_not_throw (this : CircuitBreaker) : Prop :=
  match hooks this with
  | Some h =>
      (forall f, onStateChange h = Some f -> forall prev next m, f prev next m = Return tt) /\
      (forall g, onError h = Some g -> forall err m, g err m = Return tt)
  | None => True
  end.

(* ===================================================================== *)
(** ** The engine over a store of objects *)
(* ===================================================================== *)

(** The same class with its state objects placed in a store, so that a
    reference handed out can be told from a copy.  An object literal and a
    spread [{ ...o }] allocate a new object; [this.state] is a reference; a
    holder of a reference can overwrite the fields of the object behind it
    ([readonly] is erased at run time).  A reference held by a live object is
    always allocated, so the default of the total lookup [!!!] is never
    read; [wf] below states it. *)

Global Instance CircuitBreakerState_inhabited : Inhabited CircuitBreakerState :=
  populate initialState.

(** What a client of an instance can do between two moments: call one of the
    three entry points, take a snapshot with [getState()] and keep it, or
    overwrite the fields of the [i]-th snapshot it keeps. *)
Inductive Action : Type :=
| ActCall (c : Call)
| ActGetState
| ActWrite (i : nat) (v : CircuitBreakerState).

(** What the client sees of an action. *)
Inductive Observation : Type :=
| ObsCompletion (r : Completion unit)
| ObsSnapshot (v : CircuitBreakerState)
| ObsWritten.

(** The engine of the previous section as the reference behaviour: a write
    to a snapshot does nothing to it. *)
Definition act (a : Action) (this : CircuitBreaker) : CircuitBreaker * Observation :=
  match a with
  | ActCall c => (fst (perform c this), ObsCompletion (snd (perform c this)))
  | ActGetState =>
      match getState this with
      | (this', Return v) => (this', ObsSnapshot v)
      | (this', Throw err) => (this', ObsCompletion (Throw err))
      end
  | ActWrite _ _ => (this, ObsWritten)
  end.

Fixpoint acts (prog : list Action) (this : CircuitBreaker) :
    CircuitBreaker * list Observation :=
  match prog with
  | [] => (this, [])
  | a :: rest =>
      let '(this', o) := act a this in
      let '(final, os) := acts rest this' in
      (final, o :: os)
  end.

Abbreviation loc := positive (only parsing).

(** The fields of an instance; [state_ref] is [this.state]. *)
Record Instance : Type := {
  state_ref : loc;
  inst_options : CircuitBreakerOptions;
  inst_name : option string;
  inst_hooks : option CircuitBreakerHooks
}.

(** The store of state objects and the instance [self] living in it. *)
Record Store : Type := {
  heap : gmap loc CircuitBreakerState;
  self : Instance
}.

(** An object literal or a spread: a new object with the given fields. *)
Definition alloc (v : CircuitBreakerState) : M Store loc :=
  fun w =>
    let l := fresh (dom (heap w)) in
    ({| heap := <[l := v]> (heap w); self := self w |}, Return l).

(** Reading the fields of the object behind a reference. *)
Definition read (l : loc) : M Store CircuitBreakerState :=
  gets (fun w => heap w !!! l).

(** Overwriting the fields of the object behind a reference. *)
Definition write (l : loc) (v : CircuitBreakerState) (w : Store) : Store :=
  {| heap := <[l := v]> (heap w); self := self w |}.

(** [this.state = l] *)
Definition assign_state_ref (l : loc) : M Store unit :=
  modify (fun w =>
    {| heap := heap w;
       self := {| state_ref := l;
                  inst_options := inst_options (self w);
                  inst_name := inst_name (self w);
                  inst_hooks := inst_hooks (self w) |} |}).

(** The fields of [this.state]. *)
Definition current (w : Store) : CircuitBreakerState := heap w !!! state_ref (self w).

(** The methods of the class, over the store. *)
Module Objects.

(** The hooks are handed the two references and look at the objects. *)
Definition call_onStateChange (prev next : loc) : M Store unit :=
  fun w =>
    match inst_hooks (self w) with
    | Some h =>
        match onStateChange h with
        | Some f =>
            call (f (heap w !!! prev) (heap w !!! next)
                    {| meta_name := inst_name (self w) |}) w
        | None => ret tt w
        end
    | None => ret tt w
    end.

Definition call_onError (err : JsError) (op : string) : M Store unit :=
  fun w =>
    match inst_hooks (self w) with
    | Some h =>
        match onError h with
        | Some f => call (f err {| err_name := inst_name (self w); operation := op |}) w
        | None => ret tt w
        end
    | None => ret tt w
    end.

Definition setState (next : loc) : M Store unit :=
  let* prev := gets (fun w => state_ref (self w)) in
  let* fields := read next in
  let* copy := alloc fields in
  assign_state_ref copy >>
  let* cur := gets (fun w => state_ref (self w)) in
  call_onStateChange prev cur.

Definition getState : M Store loc :=
  let* cur := gets (fun w => state_ref (self w)) in
  let* fields := read cur in
  alloc fields.

Definition assertCanExecute (now : Z) : M Store unit :=
  try_catch
    (fun w =>
       if bool_decide (status (current w) = OPEN) then
         if truthy (openedAt (current w)) &&
            match openedAt (current w) with
            | Some t => resetTimeoutMs (inst_options (self w)) <=? now - t
            | None => false
            end
         then
           (let* next := alloc {| status := HALF_OPEN;
                                  failureCount := 0;
                                  successCount := 0;
                                  openedAt := openedAt (current w) |} in
            setState next) w
         else throw (Error "Circuit breaker is open") w
       else ret tt w)
    (fun err => call_onError err "assertCanExecute" >> throw err).

Definition recordSuccess : M Store unit :=
  try_catch
    (fun w =>
       if bool_decide (status (current w) = HALF_OPEN) then
         let successCount' := successCount (current w) + 1 in
         if successThreshold (inst_options (self w)) <=? successCount' then
           (let* next := alloc {| status := CLOSED;
                                  failureCount := 0;
                                  successCount := 0;
                                  openedAt := None |} in
            setState next) w
         else
           (let* next := alloc {| status := status (current w);
                                  failureCount := failureCount (current w);
                                  successCount := successCount';
                                  openedAt := openedAt (current w) |} in
            setState next) w
       else ret tt w)
    (fun err => call_onError err "recordSuccess" >> throw err).

Definition recordFailure (now : Z) : M Store unit :=
  try_catch
    (fun w =>
       if bool_decide (status (current w) = CLOSED) ||
          bool_decide (status (current w) = HALF_OPEN) then
         let failureCount' := failureCount (current w) + 1 in
         if failureThreshold (inst_options (self w)) <=? failureCount' then
           (let* next := alloc {| status := OPEN;
                                  failureCount := 0;
                                  successCount := 0;
                                  openedAt := Some now |} in
            setState next) w
         else
           (let* next := alloc {| status := status (current w);
                                  failureCount := failureCount';
                                  successCount := successCount (current w);
                                  openedAt := openedAt (current w) |} in
            setState next) w
       else ret tt w)
    (fun err => call_onError err "recordFailure" >> throw err).

Definition perform (c : Call) : M Store unit :=
  match c with
  | CallAssertCanExecute now => assertCanExecute now
  | CallRecordSuccess => recordSuccess
  | CallRecordFailure now => recordFailure now
  end.

(** [new CircuitBreaker(options, name, hooks)] in a store: the field
    initialiser allocates the first state object. *)
Definition new_CircuitBreaker (h : gmap loc CircuitBreakerState)
    (options : CircuitBreakerOptions) (name : option string)
    (hooks : option CircuitBreakerHooks) : Store :=
  let l := fresh (dom h) in
  {| heap := <[l := initialState]> h;
     self := {| state_ref := l; inst_options := options; inst_name := name;
                inst_hooks := hooks |} |}.

End Objects.

(** A client: the store, and the snapshots it has been handed. *)
Record Client : Type := {
  world : Store;
  held : list loc
}.

Definition client_act (a : Action) (cl : Client) : Client * Observation :=
  match a with
  | ActCall c =>
      let '(w, r) := Objects.perform c (world cl) in
      ({| world := w; held := held cl |}, ObsCompletion r)
  | ActGetState =>
      match Objects.getState (world cl) with
      | (w, Return snap) =>
          ({| world := w; held := held cl ++ [snap] |}, ObsSnapshot (heap w !!! snap))
      | (w, Throw err) =>
          ({| world := w; held := held cl |}, ObsCompletion (Throw err))
      end
  | ActWrite i v =>
      match held cl !! i with
      | Some l => ({| world := write l v (world cl); held := held cl |}, ObsWritten)
      | None => (cl, ObsWritten)
      end
  end.

Fixpoint client_acts (prog : list Action) (cl : Client) : Client * list Observation :=
  match prog with
  | [] => (cl, [])
  | a :: rest =>
      let '(cl', o) := client_act a cl in
      let '(final, os) := client_acts rest cl' in
      (final, o :: os)
  end.

(** The instance as the previous section sees it. *)
Definition view (w : Store) : CircuitBreaker :=
  {| state := current w;
     options := inst_options (self w);
     name := inst_name (self w);
     hooks := inst_hooks (self w) |}.

(** [this.state] is allocated. *)
Definition wf (w : Store) : Prop := state_ref (self w) ∈ dom (heap w).

(** The snapshots held are allocated objects other than [this.state]. *)
Definition client_wf (cl : Client) : Prop :=
  wf (world cl) /\
  forall l, l ∈ held cl -> l ∈ dom (heap (world cl)) /\ l <> state_ref (self (world cl)).

(** A step keeps every allocated object as it is and leaves [this.state] at
    an allocated object that is either the old one or a new one. *)
Definition grows (w w' : Store) : Prop :=
  (forall l, l ∈ dom (heap w) -> heap w' !! l = heap w !! l) /\
  wf w' /\
  (state_ref (self w') = state_ref (self w) \/ state_ref (self w') ∉ dom (heap w)).

(** The outcome of a step in the store, seen through [view], is the outcome
    [r'] of a step on values. *)
Definition matches {A} (r : Store * Completion A) (r' : CircuitBreaker * Completion A) :
    Prop :=
  view (fst r) = fst r' /\ snd r = snd r'.

(* ===================================================================== *)
(** ** The remote extension ([src/remote-circuit-breaker.ts]) *)
(* ===================================================================== *)

(** [AsyncCircuitBreakerStorage] ([src/types.ts]): a backend whose own state
    has type [S].  Awaiting a promise that rejects is a [Throw]. *)
Record AsyncCircuitBreakerStorage (S : Type) : Type := {
  storage_put : string -> CircuitBreakerState -> M S string;
  storage_get : string -> M S (option VersionedStorageValue);
  storage_delete : string -> M S unit
}.
Arguments storage_put {S} _ _ _ _.
Arguments storage_get {S} _ _ _.
Arguments storage_delete {S} _ _ _.

(** A [RemoteCircuitBreaker] is a [CircuitBreaker] (the inherited fields, here
    [engine]) with a private [storage]. *)
Record RemoteCircuitBreaker (S : Type) : Type := {
  engine : CircuitBreaker;
  storage : AsyncCircuitBreakerStorage S
}.
Arguments engine {S} _.
Arguments storage {S} _.

(** The methods of the extension run on the instance and on the state of the
    backend its [storage] talks to. *)
Definition Remote (S : Type) : Type := (RemoteCircuitBreaker S * S)%type.

(** [new RemoteCircuitBreaker(options, storage, name, hooks)]: [!name] holds of
    the empty string. *)
Definition new_RemoteCircuitBreaker {S} (options : CircuitBreakerOptions)
    (storage : AsyncCircuitBreakerStorage S) (name : string)
    (hooks : option CircuitBreakerHooks) : Completion (RemoteCircuitBreaker S) :=
  if decide (name = "") then
    Throw (Error "RemoteCircuitBreaker requires a non-empty name")
  else
    Return {| engine := new_CircuitBreaker options (Some name) hooks; storage := storage |}.

(** [this.name!]: the constructor has set the name, and the assertion has no
    effect at run time. *)
Definition this_name {S} (this : RemoteCircuitBreaker S) : string :=
  default "" (name (engine this)).

(** [await this.storage.<method>(...)] *)
Definition await_storage {S A} (m : M S A) : M (Remote S) A :=
  fun w =>
    match m (snd w) with
    | (backend, r) => ((fst w, backend), r)
    end.

Definition save {S} : M (Remote S) unit :=
  try_catch
    (let* this := gets fst in
     await_storage (storage_put (storage this) (this_name this) (state (engine this))) >>
     ret tt)
    (fun err =>
       if instanceof_ConcurrencyConflictError err then throw err
       else throw (StorageOperationError "Failed to save circuit breaker state" err)).

Definition safeSave {S} : M (Remote S) unit :=
  try_catch
    (let* this := gets fst in
     let* existing := await_storage (storage_get (storage this) (this_name this)) in
     match existing with
     | Some _ => throw (ItemAlreadyExistsError (this_name this))
     | None => save
     end)
    (fun err =>
       if instanceof_ItemAlreadyExistsError err then throw err
       else throw (StorageOperationError "Failed to safeSave circuit breaker state" err)).

Definition load {S} : M (Remote S) (option CircuitBreakerState) :=
  try_catch
    (let* this := gets fst in
     let* raw := await_storage (storage_get (storage this) (this_name this)) in
     match raw with
     | None => ret None
     | Some v => ret (Some (value v))
     end)
    (fun err => throw (StorageOperationError "Failed to load circuit breaker state" err)).

(* ===================================================================== *)
(** ** Storage backends *)
(* ===================================================================== *)

(** [MockStorage] of [src/remote-circuit-breaker.test.ts]: a [Map] from keys
    to versioned values.  The version token [(Date.now() +
    Math.random()).toString(36)] is some new string; [issued] counts the
    tokens handed out and the token is its decimal. *)
Record MockStorage : Type := {
  store : gmap string VersionedStorageValue;
  issued : nat
}.

(** [put(key, value, version?)]: a write with a [version] other than the
    stored one is rejected. *)
Definition MockStorage_put (key : string) (v : CircuitBreakerState) (expected : option string) :
    M MockStorage string :=
  fun m =>
    let conflict :=
      match expected, store m !! key with
      | Some ver, Some cur => negb (bool_decide (version cur = ver))
      | _, _ => false
      end in
    if conflict then throw (ConcurrencyConflictError "Version conflict detected") m
    else
      let newVersion := pretty (issued m) in
      ({| store := <[key := {| value := v; version := newVersion |}]> (store m);
          issued := S (issued m) |},
       Return newVersion).

Definition MockStorage_get (key : string) : M MockStorage (option VersionedStorageValue) :=
  fun m =>
    match store m !! key with
    | None => (m, Return None)
    | Some entry => (m, Return (Some {| value := value entry; version := version entry |}))
    end.

Definition MockStorage_delete (key : string) : M MockStorage unit :=
  fun m => ({| store := delete key (store m); issued := issued m |}, Return tt).

(** The interface has no [version] parameter: the extension calls [put] with
    two arguments. *)
Definition mockStorage : AsyncCircuitBreakerStorage MockStorage :=
  {| storage_put := fun key v => MockStorage_put key v None;
     storage_get := MockStorage_get;
     storage_delete := MockStorage_delete |}.

(** [new MockStorage()] *)
Definition new_MockStorage : MockStorage := {| store := ∅; issued := 0 |}.

(** A backend that has no entry and whose conditional write loses the race:
    [get] resolves to [undefined] and [put] rejects with a
    [ConcurrencyConflictError] for the key. *)
Definition conflictingStorage : AsyncCircuitBreakerStorage unit :=
  {| storage_put := fun key _ => throw (ConcurrencyConflictError key);
     storage_get := fun _ => ret None;
     storage_delete := fun _ => ret tt |}.

(** The calls a backend receives. *)
Inductive StorageCall : Type :=
| CalledPut (key : string) (v : CircuitBreakerState)
| CalledGet (key : string)
| CalledDelete (key : string).

(** The same backend behind a recorder of the calls made to it. *)
Definition recorded {S} (st : AsyncCircuitBreakerStorage S) :
    AsyncCircuitBreakerStorage (S * list StorageCall) :=
  let record {A} (c : StorageCall) (m : M S A) : M (S * list StorageCall) A :=
    fun w =>
      match m (fst w) with
      | (backend, r) => ((backend, snd w ++ [c]), r)
      end in
  {| storage_put := fun key v => record (CalledPut key v) (storage_put st key v);
     storage_get := fun key => record (CalledGet key) (storage_get st key);
     storage_delete := fun key => record (CalledDelete key) (storage_delete st key) |}.

(** The instance with its [storage] replaced by the recording one. *)
Definition with_recorded {S} (this : RemoteCircuitBreaker S) :
    RemoteCircuitBreaker (S * list StorageCall) :=
  {| engine := engine this; storage := recorded (storage this) |}.

(* ===================================================================== *)
(** ** The scenario of the test suites *)
(* ===================================================================== *)

(** The configuration used by every test file. *)
Definition scenario_options : CircuitBreakerOptions :=
  {| failureThreshold := 2; successThreshold := 2; resetTimeoutMs := 1000 |}.

(** [new CircuitBreaker(options)] *)
Definition scenario_breaker : CircuitBreaker :=
  new_CircuitBreaker scenario_options None None.

(** Two failures at time 1000: the breaker has opened. *)
Definition scenario_opened : CircuitBreaker :=
  run [CallRecordFailure 1000; CallRecordFailure 1000] scenario_breaker.

(** The gate is asked at time 2000, once the reset timeout has passed: the
    breaker is probing. *)
Definition scenario_probing : CircuitBreaker :=
  run [CallAssertCanExecute 2000] scenario_opened.

(** [new RemoteCircuitBreaker(options, storage, 'test-cb')] over a
    [MockStorage], as in the remote test suite. *)
Definition scenario_remote : RemoteCircuitBreaker MockStorage :=
  {| engine := new_CircuitBreaker scenario_options (Some "test-cb") None;
     storage := mockStorage |}.

(** The same breaker over the backend that loses every race. *)
Definition scenario_conflicting : RemoteCircuitBreaker unit :=
  {| engine := new_CircuitBreaker scenario_options (Some "test-cb") None;
     storage := conflictingStorage |}.

(** Hooks that record what they are given and return, as those of the test
    suites do. *)
Definition scenario_hooks : CircuitBreakerHooks :=
  {| onStateChange := Some (fun _ _ _ => Return tt);
     onError := Some (fun _ _ => Return tt) |}.

(** The opened breaker of the scenario, with the hooks. *)
Definition scenario_hooked_opened : CircuitBreaker :=
  run [CallRecordFailure 1000; CallRecordFailure 1000]
      (new_CircuitBreaker scenario_options (Some "test") (Some scenario_hooks)).

(** A client of a new breaker that has not taken a snapshot yet. *)
Definition scenario_client : Client :=
  {| world := Objects.new_CircuitBreaker ∅ scenario_options None None; held := [] |}.

(** It takes a snapshot, overwrites every field of it, lets the breaker
    record a failure, asks the gate and takes a second snapshot. *)
Definition scenario_program : list Action :=
  [ ActGetState;
    ActWrite 0 {| status := OPEN; failureCount := 7; successCount := 7; openedAt := Some 1 |};
    ActCall (CallRecordFailure 1000);
    ActCall (CallAssertCanExecute 1000);
    ActGetState ].

(** A breaker that opened at time 1000, over a [MockStorage] holding the
    entry of a CLOSED breaker, as in the test "should validate loaded state". *)
Definition scenario_remote_opened : Remote MockStorage :=
  ({| engine := run [CallRecordFailure 1000; CallRecordFailure 1000] (engine scenario_remote);
      storage := mockStorage |},
   fst (MockStorage_put "test-cb" initialState None new_MockStorage)).

(* ===================================================================== *)
(** ** The invariant of the state model *)
(* ===================================================================== *)

(** [openedAt] is present exactly in the statuses OPEN and HALF_OPEN, the
    latter being entered from OPEN only; it is absent in CLOSED. *)
Definition openedAt_iff_opened (s : CircuitBreakerState) : Prop :=
  is_Some (openedAt s) <-> status s = OPEN \/ status s = HALF_OPEN.

(* ===================================================================== *)
(** ** Measures of a call sequence and of a state *)
(* ===================================================================== *)

(** The number of [recordFailure()] calls in a sequence. *)
Fixpoint failures (cs : list Call) : Z :=
  match cs with
  | [] => 0
  | CallRecordFailure _ :: rest => 1 + failures rest
  | _ :: rest => failures rest
  end.

(** The number of [recordSuccess()] calls in a sequence. *)
Fixpoint successes (cs : list Call) : Z :=
  match cs with
  | [] => 0
  | CallRecordSuccess :: rest => 1 + successes rest
  | _ :: rest => successes rest
  end.

(** Every clock reading made by a gate call of the sequence is earlier than
    [deadline]. *)
Definition gate_before (deadline : Z) (cs : list Call) : Prop :=
  Forall (fun c => match c with
                   | CallAssertCanExecute now => now < deadline
                   | _ => True
                   end) cs.

(** The same instance constructed without hooks. *)
Definition without_hooks (this : CircuitBreaker) : CircuitBreaker :=
  {| state := state this; options := options this; name := name this; hooks := None |}.

(** The counters stay below their thresholds, and are zero where the status
    does not use them. *)
Definition counters_in_range (opts : CircuitBreakerOptions) (s : CircuitBreakerState) : Prop :=
  0 <= failureCount s < failureThreshold opts /\
  0 <= successCount s < successThreshold opts /\
  (status s = OPEN -> failureCount s = 0 /\ successCount s = 0) /\
  (status s = CLOSED -> successCount s = 0).

(** A breaker whose state-change hook throws and whose error hook returns. *)
Definition scenario_throwing_onStateChange : CircuitBreaker :=
  new_CircuitBreaker scenario_options (Some "test")
    (Some {| onStateChange := Some (fun _ _ _ => Throw (Error "hook failed"));
             onError := Some (fun _ _ => Return tt) |}).

(** An opened breaker whose error hook throws. *)
Definition scenario_throwing_onError : CircuitBreaker :=
  run [CallRecordFailure 1000; CallRecordFailure 1000]
      (new_CircuitBreaker scenario_options (Some "test")
         (Some {| onStateChange := None;
                  onError := Some (fun _ _ => Throw (Error "hook failed")) |})).

(* ===================================================================== *)
(** ** The function decorator ([src/decorator.ts]) *)
(* ===================================================================== *)

(** The protected operation [fn(...args)] acts on a world [W] of its own, in
    which the breaker does not live, and resolves or rejects.  A wrapped call
    runs on the breaker and on that world. *)
Definition Guarded (W : Type) : Type := (CircuitBreaker * W)%type.

(** A method call on [breaker]. *)
Definition on_breaker {W A} (m : M CircuitBreaker A) : M (Guarded W) A :=
  fun s =>
    match m (fst s) with
    | (breaker, r) => ((breaker, snd s), r)
    end.

(** [await fn(...args)] *)
Definition await_fn {W A} (m : M W A) : M (Guarded W) A :=
  fun s =>
    match m (snd s) with
    | (w, r) => ((fst s, w), r)
    end.

(** [withCircuitBreaker(breaker, fn)(...args)]; [now_gate] and [now_failure]
    are the clock readings of [assertCanExecute] and of [recordFailure]. *)
Definition withCircuitBreaker {W Args R} (fn : Args -> M W R) (now_gate now_failure : Z)
    (args : Args) : M (Guarded W) R :=
  on_breaker (assertCanExecute now_gate) >>
  try_catch
    (let* result := await_fn (fn args) in
     on_breaker recordSuccess >>
     ret result)
    (fun err => on_breaker (recordFailure now_failure) >> throw err).

(** The wrapped function of the decorator tests: it counts its calls in the
    world and resolves to ["ok"] or rejects with [Error "fail"]. *)
Definition counting_ok (_ : unit) : M nat string :=
  fun calls => (S calls, Return "ok").

Definition counting_fail (_ : unit) : M nat string :=
  fun calls => (S calls, Throw (Error "fail")).

(** Wrapped calls made one after the other; each element carries the two
    clock readings of its call, and a rejected call does not stop the
    caller. *)
Fixpoint wrapped_calls {W Args R} (fn : Args -> M W R) (calls : list (Z * Z * Args))
    (s : Guarded W) : Guarded W * list (Completion R) :=
  match calls with
  | [] => (s, [])
  | (now_gate, now_failure, args) :: rest =>
      let '(s', r) := withCircuitBreaker fn now_gate now_failure args s in
      let '(final, rs) := wrapped_calls fn rest s' in
      (final, r :: rs)
  end.

(** The probing breaker of the scenario, with the throwing state-change
    hook. *)
Definition scenario_throwing_probing : CircuitBreaker :=
  run [CallRecordFailure 1000; CallRecordFailure 1000; CallAssertCanExecute 2000]
      scenario_throwing_onStateChange.

(** [badStorage] of [src/remote-circuit-breaker.test.ts]: every method
    rejects with [new Error('fail')]. *)
Definition badStorage : AsyncCircuitBreakerStorage unit :=
  {| storage_put := fun _ _ => throw (Error "fail");
     storage_get := fun _ => throw (Error "fail");
     storage_delete := fun _ => throw (Error "fail") |}.

(** [new RemoteCircuitBreaker(options, badStorage, name)] *)
Definition scenario_bad : RemoteCircuitBreaker unit :=
  {| engine := new_CircuitBreaker scenario_options (Some "test-cb") None;
     storage := badStorage |}.

(* ===================================================================== *)
(** ** The Cloudflare KV adapter ([CloudflareKVStorage]) *)
(* ===================================================================== *)

(** JSON values.  A text written with [JSON.stringify] and read back with
    [get(key, 'json')] is represented by the value it denotes; an object is
    the finite map of its properties. *)
#[local] Set Warnings "-register-all".
Inductive Json : Type :=
| JNull
| JBool (b : bool)
| JNum (n : Z)
| JStr (s : string)
| JArr (items : list Json)
| JObj (fields : gmap string Json).
#[local] Set Warnings "register-all".

(** [KVNamespace] of [@cloudflare/workers-types], as far as the adapter uses
    it: [put(key, text)], [get(key, 'json')], which resolves to the parsed
    text or to [null] when the key is missing, and [delete(key)]. *)
Record KVNamespace (K : Type) : Type := {
  kv_put : string -> Json -> M K unit;
  kv_get_json : string -> M K Json;
  kv_delete : string -> M K unit
}.
Arguments kv_put {K} _ _ _ _.
Arguments kv_get_json {K} _ _ _.
Arguments kv_delete {K} _ _ _.

(** The string of a status. *)
Definition status_name (s : CircuitBreakerStatus) : string :=
  match s with
  | OPEN => "OPEN"
  | CLOSED => "CLOSED"
  | HALF_OPEN => "HALF_OPEN"
  end.

(** The properties of a state object that [JSON.stringify] writes: a property
    holding [undefined] is left out. *)
Definition state_fields (v : CircuitBreakerState) : gmap string Json :=
  let counters : gmap string Json :=
    <["successCount" := JNum (successCount v)]>
      (<["failureCount" := JNum (failureCount v)]>
         (<["status" := JStr (status_name (status v))]> ∅)) in
  match openedAt v with
  | Some t => <["openedAt" := JNum t]> counters
  | None => counters
  end.

(** The own properties that a spread [{ ...value }] copies from an array: one
    per index. *)
Definition array_fields (items : list Json) : gmap string Json :=
  list_to_map (imap (fun i item => (pretty i, item)) items).

Section CloudflareKVStorage.

Context {K : Type} (kv : KVNamespace K).

(** [put(key, value)]; [iso] is [new Date().toISOString()]. *)
Definition CloudflareKVStorage_put (key : string) (v : CircuitBreakerState) (iso : string) :
    M K string :=
  let newVersion := iso in
  kv_put kv key (JObj (<["version" := JStr newVersion]> (state_fields v))) >>
  ret newVersion.

(** [get(key)]: the object it resolves to, property by property, or [None]
    for [undefined]; [iso] is [new Date().toISOString()]. *)
Definition CloudflareKVStorage_get (key : string) (iso : string) :
    M K (option (gmap string Json)) :=
  let* v := kv_get_json kv key in
  match v with
  | JObj fields =>
      ret (Some (<["version" := match fields !! "version" with
                                   | Some (JStr ver) => JStr ver
                                   | _ => JStr iso
                                   end]> fields))
  | JArr items => ret (Some (<["version" := JStr iso]> (array_fields items)))
  | _ => ret None
  end.

(** [delete(key)] *)
Definition CloudflareKVStorage_delete (key : string) : M K unit :=
  kv_delete kv key.

End CloudflareKVStorage.

(** A namespace kept in memory, with the behaviour of the real one on a
    single consistent replica. *)
Definition memoryKV : KVNamespace (gmap string Json) :=
  {| kv_put := fun key j => modify (insert key j);
     kv_get_json := fun key => gets (fun m => default JNull (m !! key));
     kv_delete := fun key => modify (delete key) |}.

(** A full cycle of the breaker: [n] failures, the last one at [opened], a
    gate check at [probe], and [m] successes. *)
Definition full_cycle (nows : list Z) (opened probe : Z) (m : nat) : list Call :=
  (CallRecordFailure <$> nows) ++ [CallRecordFailure opened] ++
  [CallAssertCanExecute probe] ++ replicate m CallRecordSuccess.

(** A client program that writes to no snapshot. *)
Definition writes_nothing (prog : list Action) : Prop :=
  Forall (fun a => match a with ActWrite _ _ => False | _ => True end) prog.

(* ===================================================================== *)
(** * Properties *)
(* ===================================================================== *)

(** ** What each entry point does to the instance *)

Section EngineSteps.

Implicit Types (this : CircuitBreaker) (next : CircuitBreakerState) (now : Z).

Lemma setState_fst next this :
  fst (setState next this) = assign_state next this.
Proof.
  unfold setState, bind, gets, modify, call_onStateChange, call, ret; simpl.
  destruct (hooks this) as [h|]; [destruct (onStateChange h) as [f|] |]; simpl;
    reflexivity.
Qed.

Lemma setState_snd next this :
  hooks_do_not_throw this -> snd (setState next this) = Return tt.
Proof.
  unfold hooks_do_not_throw, setState, bind, gets, modify, call_onStateChange, call, ret;
    simpl.
  destruct (hooks this) as [h|]; [destruct (onStateChange h) as [f|] |]; simpl;
    try reflexivity.
  intros [Hf _]. rewrite (Hf f eq_refl). reflexivity.
Qed.

(** The handler shared by the three entry points reports the error and
    rethrows: it leaves the instance as the body left it. *)
Lemma rethrow_fst (body : M CircuitBreaker unit) (op : string) this :
  fst (try_catch body (fun err => call_onError err op >> throw err) this) = fst (body this).
Proof.
  unfold try_catch, bind, call_onError, call, ret, throw.
  destruct (body this) as [this' [[]|err]]; simpl; [reflexivity|].
  destruct (hooks this') as [h|]; [destruct (onError h) as [g|] |]; simpl;
    try reflexivity.
  destruct (g _ _); reflexivity.
Qed.

Lemma rethrow_returns (body : M CircuitBreaker unit) (op : string) this :
  snd (body this) = Return tt ->
  snd (try_catch body (fun err => call_onError err op >> throw err) this) = Return tt.
Proof.
  unfold try_catch. destruct (body this) as [this' [[]|err]]; simpl; congruence.
Qed.

Lemma rethrow_throws (body : M CircuitBreaker unit) (op : string) this err :
  hooks_do_not_throw (fst (body this)) ->
  snd (body this) = Throw err ->
  snd (try_catch body (fun err => call_onError err op >> throw err) this) = Throw err.
Proof.
  unfold try_catch, hooks_do_not_throw, bind, call_onError, call, ret, throw.
  destruct (body this) as [this' [[]|err']]; simpl; [congruence|].
  intros Hq [= ->].
  destruct (hooks this') as [h|]; [destruct (onError h) as [g|] |]; simpl;
    try reflexivity.
  destruct Hq as [_ Hg]. rewrite (Hg g eq_refl). reflexivity.
Qed.

Lemma hooks_do_not_throw_assign next this :
  hooks_do_not_throw (assign_state next this) <-> hooks_do_not_throw this.
Proof. reflexivity. Qed.

Lemma recordFailure_fst now this :
  fst (recordFailure now this) =
  if isClosed this || isHalfOpen this then
    if failureThreshold (options this) <=? failureCount (state this) + 1 then
      assign_state {| status := OPEN; failureCount := 0; successCount := 0;
                      openedAt := Some now |} this
    else
      assign_state {| status := status (state this);
                      failureCount := failureCount (state this) + 1;
                      successCount := successCount (state this);
                      openedAt := openedAt (state this) |} this
  else this.
Proof.
  unfold recordFailure. rewrite rethrow_fst.
  destruct (isClosed this || isHalfOpen this); [|reflexivity].
  destruct (_ <=? _); apply setState_fst.
Qed.

Lemma recordSuccess_fst this :
  fst (recordSuccess this) =
  if isHalfOpen this then
    if successThreshold (options this) <=? successCount (state this) + 1 then
      assign_state {| status := CLOSED; failureCount := 0; successCount := 0;
                      openedAt := None |} this
    else
      assign_state {| status := status (state this);
                      failureCount := failureCount (state this);
                      successCount := successCount (state this) + 1;
                      openedAt := openedAt (state this) |} this
  else this.
Proof.
  unfold recordSuccess. rewrite rethrow_fst.
  destruct (isHalfOpen this); [|reflexivity].
  destruct (_ <=? _); apply setState_fst.
Qed.

Lemma assertCanExecute_fst now this :
  fst (assertCanExecute now this) =
  if isOpen this && (truthy (openedAt (state this)) && timeout_elapsed now this) then
    assign_state {| status := HALF_OPEN; failureCount := 0; successCount := 0;
                    openedAt := openedAt (state this) |} this
  else this.
Proof.
  unfold assertCanExecute. rewrite rethrow_fst.
  destruct (isOpen this); [|reflexivity]; simpl.
  destruct (_ && _); [apply setState_fst | reflexivity].
Qed.

Lemma recordFailure_snd now this :
  hooks_do_not_throw this -> snd (recordFailure now this) = Return tt.
Proof.
  intros Hq. unfold recordFailure. apply rethrow_returns.
  destruct (isClosed this || isHalfOpen this); [|reflexivity].
  destruct (_ <=? _); apply setState_snd, Hq.
Qed.

Lemma recordSuccess_snd this :
  hooks_do_not_throw this -> snd (recordSuccess this) = Return tt.
Proof.
  intros Hq. unfold recordSuccess. apply rethrow_returns.
  destruct (isHalfOpen this); [|reflexivity].
  destruct (_ <=? _); apply setState_snd, Hq.
Qed.

Lemma assertCanExecute_snd now this :
  hooks_do_not_throw this ->
  snd (assertCanExecute now this) =
  if isOpen this && negb (truthy (openedAt (state this)) && timeout_elapsed now this)
  then Throw (Error "Circuit breaker is open")
  else Return tt.
Proof.
  intros Hq. unfold assertCanExecute.
  destruct (isOpen this) eqn:Ho; simpl.
  - destruct (_ && _) eqn:Hb; simpl.
    + apply rethrow_returns. rewrite Ho, Hb. apply setState_snd, Hq.
    + apply rethrow_throws; rewrite Ho, Hb; [exact Hq | reflexivity].
  - apply rethrow_returns. rewrite Ho. reflexivity.
Qed.

Lemma status_cases this :
  (status (state this) = OPEN /\ isOpen this = true /\ isClosed this = false
     /\ isHalfOpen this = false) \/
  (status (state this) = CLOSED /\ isOpen this = false /\ isClosed this = true
     /\ isHalfOpen this = false) \/
  (status (state this) = HALF_OPEN /\ isOpen this = false /\ isClosed this = false
     /\ isHalfOpen this = true).
Proof.
  unfold isOpen, isClosed, isHalfOpen.
  destruct (status (state this)); [left | right; left | right; right]; done.
Qed.

End EngineSteps.

(** ** The engine's transitions *)

(** C1, counterexample: with the test configuration (failureThreshold 2), a
    breaker that has just started probing records one failure and stays
    HALF_OPEN with failureCount 1; it does not open. *)
Lemma recordFailure_half_open_stays_cex :
  status (state scenario_probing) = HALF_OPEN /\
  state (fst (recordFailure 2500 scenario_probing)) =
    {| status := HALF_OPEN; failureCount := 1; successCount := 0; openedAt := Some 1000 |} /\
  status (state (fst (recordFailure 2500 scenario_probing))) <> OPEN.
Proof. repeat split; vm_compute; (reflexivity || discriminate). Qed.

(** C1, as amended: in a HALF_OPEN state a call of recordFailure() opens the
    breaker (counters zero, openedAt the current time) exactly when
    failureCount + 1 reaches failureThreshold, whatever successCount is;
    below the threshold it stays HALF_OPEN and only failureCount is
    incremented. *)
Theorem recordFailure_half_open now this :
  status (state this) = HALF_OPEN ->
  (failureThreshold (options this) <= failureCount (state this) + 1 ->
   fst (recordFailure now this) =
     assign_state {| status := OPEN; failureCount := 0; successCount := 0;
                     openedAt := Some now |} this) /\
  (failureCount (state this) + 1 < failureThreshold (options this) ->
   fst (recordFailure now this) =
     assign_state {| status := HALF_OPEN;
                     failureCount := failureCount (state this) + 1;
                     successCount := successCount (state this);
                     openedAt := openedAt (state this) |} this).
Proof.
  intros Hs. rewrite recordFailure_fst.
  destruct (status_cases this) as [(E & _)|[(E & _)|(_ & _ & -> & ->)]];
    [congruence | congruence |]; simpl.
  rewrite Hs. split; intros Hc.
  - apply Z.leb_le in Hc. rewrite Hc. reflexivity.
  - apply Z.leb_gt in Hc. rewrite Hc. reflexivity.
Qed.

Lemma recordFailure_half_open_witness :
  status (state scenario_probing) = HALF_OPEN /\
  fst (recordFailure 2500 scenario_probing) =
    assign_state {| status := HALF_OPEN; failureCount := 1; successCount := 0;
                    openedAt := Some 1000 |} scenario_probing.
Proof.
  split; [reflexivity|].
  apply (recordFailure_half_open 2500 scenario_probing); [reflexivity | vm_compute; reflexivity].
Defined.

(** C2, counterexample: the opened breaker of the scenario (openedAt 1000,
    resetTimeoutMs 1000) is asked at time 2000; it moves to HALF_OPEN and
    returns, and openedAt is still 1000. *)
Lemma assertCanExecute_keeps_openedAt_cex :
  status (state scenario_opened) = OPEN /\
  openedAt (state scenario_opened) = Some 1000 /\
  resetTimeoutMs (options scenario_opened) <= 2000 - 1000 /\
  snd (assertCanExecute 2000 scenario_opened) = Return tt /\
  state (fst (assertCanExecute 2000 scenario_opened)) =
    {| status := HALF_OPEN; failureCount := 0; successCount := 0; openedAt := Some 1000 |} /\
  openedAt (state (fst (assertCanExecute 2000 scenario_opened))) <> None.
Proof. repeat split; vm_compute; (reflexivity || discriminate). Qed.

(** C2, as amended: in an OPEN state whose openedAt is the timestamp [t], with
    hooks that do not throw: if now - t < resetTimeoutMs the gate throws
    "Circuit breaker is open" and leaves the state unchanged; if [t] is not 0
    and now - t >= resetTimeoutMs it moves to HALF_OPEN with both counters 0,
    keeps openedAt, and returns. *)
Theorem assertCanExecute_open now this t :
  status (state this) = OPEN ->
  openedAt (state this) = Some t ->
  hooks_do_not_throw this ->
  (now - t < resetTimeoutMs (options this) ->
   assertCanExecute now this = (this, Throw (Error "Circuit breaker is open"))) /\
  (t <> 0 -> resetTimeoutMs (options this) <= now - t ->
   assertCanExecute now this =
     (assign_state {| status := HALF_OPEN; failureCount := 0; successCount := 0;
                      openedAt := Some t |} this,
      Return tt)).
Proof.
  intros Hs Ht Hq.
  pose proof (assertCanExecute_fst now this) as Hf.
  pose proof (assertCanExecute_snd now this Hq) as Hr.
  destruct (status_cases this) as [(_ & Ho & _)|[(E & _)|(E & _)]];
    [| congruence | congruence].
  rewrite Ho in Hf, Hr. unfold timeout_elapsed, truthy in Hf, Hr. rewrite Ht in Hf, Hr.
  simpl in Hf, Hr.
  destruct (assertCanExecute now this) as [this' r]; simpl in Hf, Hr. subst this' r.
  split.
  - intros Hlt. apply Z.leb_gt in Hlt. rewrite Hlt, andb_false_r. reflexivity.
  - intros Hnz Hge. apply Z.leb_le in Hge. apply Z.eqb_neq in Hnz.
    rewrite Hge, Hnz. reflexivity.
Qed.

Lemma assertCanExecute_open_witness :
  assertCanExecute 1500 scenario_opened =
    (scenario_opened, Throw (Error "Circuit breaker is open")) /\
  assertCanExecute 2000 scenario_opened =
    (assign_state {| status := HALF_OPEN; failureCount := 0; successCount := 0;
                     openedAt := Some 1000 |} scenario_opened,
     Return tt).
Proof.
  destruct (assertCanExecute_open 1500 scenario_opened 1000 eq_refl eq_refl I) as [H1 _].
  destruct (assertCanExecute_open 2000 scenario_opened 1000 eq_refl eq_refl I) as [_ H2].
  split; [apply H1; vm_compute; reflexivity | apply H2; [discriminate | vm_compute; discriminate]].
Defined.

(** In an OPEN state whose openedAt is 0 or absent the gate always throws: the
    guard [this.state.openedAt && ...] reads both as "not opened". *)
Lemma assertCanExecute_open_falsy now this :
  status (state this) = OPEN ->
  truthy (openedAt (state this)) = false ->
  hooks_do_not_throw this ->
  assertCanExecute now this = (this, Throw (Error "Circuit breaker is open")).
Proof.
  intros Hs Ht Hq.
  pose proof (assertCanExecute_fst now this) as Hf.
  pose proof (assertCanExecute_snd now this Hq) as Hr.
  destruct (status_cases this) as [(_ & Ho & _)|[(E & _)|(E & _)]];
    [| congruence | congruence].
  rewrite Ho, Ht in Hf, Hr. simpl in Hf, Hr.
  destruct (assertCanExecute now this); simpl in *; congruence.
Qed.

(** ** Counting failures up to the threshold *)

Lemma run_app cs1 cs2 this : run (cs1 ++ cs2) this = run cs2 (run cs1 this).
Proof. revert this. induction cs1 as [|c cs1 IH]; intros this; simpl; [reflexivity | apply IH]. Qed.

Lemma assign_state_same this : assign_state (state this) this = this.
Proof. destruct this; reflexivity. Qed.

(** While the count stays below the threshold every failure is only counted. *)
Lemma recordFailures_below nows this :
  status (state this) = CLOSED ->
  failureCount (state this) + Z.of_nat (length nows) < failureThreshold (options this) ->
  recordFailures nows this =
    assign_state {| status := CLOSED;
                    failureCount := failureCount (state this) + Z.of_nat (length nows);
                    successCount := successCount (state this);
                    openedAt := openedAt (state this) |} this.
Proof.
  unfold recordFailures. revert this.
  induction nows as [|now nows IH]; intros this Hs Hlt.
  - simpl. rewrite Z.add_0_r, <- Hs. destruct this as [[] ? ? ?]; reflexivity.
  - rewrite length_cons, Nat2Z.inj_succ in Hlt.
    simpl. rewrite recordFailure_fst.
    destruct (status_cases this) as [(E & _)|[(_ & _ & -> & _)|(E & _)]];
      [congruence | | congruence]; simpl.
    replace (failureThreshold (options this) <=? failureCount (state this) + 1)
      with false by (symmetry; apply Z.leb_gt; lia).
    rewrite IH; simpl; [| exact Hs | lia].
    unfold assign_state; simpl. do 2 f_equal. lia.
Qed.

(** C3: starting CLOSED with failureCount 0 and a positive failureThreshold,
    the first [k] calls of recordFailure(), for every [k] below the threshold,
    leave the breaker CLOSED with failureCount [k] and nothing else changed,
    and the call that brings the count to failureThreshold opens it (counters
    zero, openedAt that call's time). *)
Theorem recordFailure_opens_exactly_at_threshold this nows :
  status (state this) = CLOSED ->
  failureCount (state this) = 0 ->
  0 < failureThreshold (options this) ->
  (forall k : nat, (k <= length nows)%nat -> Z.of_nat k < failureThreshold (options this) ->
     recordFailures (take k nows) this =
       assign_state {| status := CLOSED; failureCount := Z.of_nat k;
                       successCount := successCount (state this);
                       openedAt := openedAt (state this) |} this) /\
  (forall (k : nat) now, nows !! k = Some now ->
     Z.of_nat (S k) = failureThreshold (options this) ->
     recordFailures (take (S k) nows) this =
       assign_state {| status := OPEN; failureCount := 0; successCount := 0;
                       openedAt := Some now |} this).
Proof.
  intros Hs H0 Hpos.
  assert (Hbelow : forall k : nat, (k <= length nows)%nat ->
            Z.of_nat k < failureThreshold (options this) ->
            recordFailures (take k nows) this =
              assign_state {| status := CLOSED; failureCount := Z.of_nat k;
                              successCount := successCount (state this);
                              openedAt := openedAt (state this) |} this).
  { intros k Hk Hlt.
    rewrite recordFailures_below; [| exact Hs | rewrite length_take, H0; lia].
    rewrite length_take, H0. do 2 f_equal. lia. }
  split; [exact Hbelow|].
  intros k now Hnow HT.
  rewrite (take_S_r _ _ _ Hnow). unfold recordFailures in *.
  rewrite fmap_app, run_app. simpl.
  apply lookup_lt_Some in Hnow.
  rewrite Hbelow by lia.
  rewrite recordFailure_fst. unfold isClosed, isHalfOpen; simpl.
  replace (failureThreshold (options this) <=? Z.of_nat k + 1)
    with true by (symmetry; apply Z.leb_le; lia).
  reflexivity.
Qed.

Lemma recordFailure_opens_exactly_at_threshold_witness :
  recordFailures (take 1 [1000; 1001]) scenario_breaker =
    assign_state {| status := CLOSED; failureCount := 1; successCount := 0;
                    openedAt := None |} scenario_breaker /\
  recordFailures (take 2 [1000; 1001]) scenario_breaker =
    assign_state {| status := OPEN; failureCount := 0; successCount := 0;
                    openedAt := Some 1001 |} scenario_breaker.
Proof.
  destruct (recordFailure_opens_exactly_at_threshold scenario_breaker [1000; 1001]
              eq_refl eq_refl eq_refl) as [Hbelow Hat].
  split.
  - apply (Hbelow 1%nat); [simpl; lia | reflexivity].
  - apply (Hat 1%nat 1001); reflexivity.
Defined.

(** ** Recording successes while probing *)

(** C4: in a HALF_OPEN state with a positive successThreshold, recordSuccess()
    closes the breaker (counters zero, openedAt cleared) when successCount + 1
    reaches successThreshold, and otherwise stays HALF_OPEN and changes only
    successCount, to successCount + 1. *)
Theorem recordSuccess_half_open this :
  status (state this) = HALF_OPEN ->
  0 < successThreshold (options this) ->
  (successThreshold (options this) <= successCount (state this) + 1 ->
   fst (recordSuccess this) =
     assign_state {| status := CLOSED; failureCount := 0; successCount := 0;
                     openedAt := None |} this) /\
  (successCount (state this) + 1 < successThreshold (options this) ->
   fst (recordSuccess this) =
     assign_state {| status := HALF_OPEN;
                     failureCount := failureCount (state this);
                     successCount := successCount (state this) + 1;
                     openedAt := openedAt (state this) |} this).
Proof.
  intros Hs _. rewrite recordSuccess_fst.
  destruct (status_cases this) as [(E & _)|[(E & _)|(_ & _ & _ & ->)]];
    [congruence | congruence |].
  rewrite Hs. split; intros Hc.
  - apply Z.leb_le in Hc. rewrite Hc. reflexivity.
  - apply Z.leb_gt in Hc. rewrite Hc. reflexivity.
Qed.

Lemma recordSuccess_half_open_witness :
  fst (recordSuccess scenario_probing) =
    assign_state {| status := HALF_OPEN; failureCount := 0; successCount := 1;
                    openedAt := Some 1000 |} scenario_probing /\
  fst (recordSuccess (fst (recordSuccess scenario_probing))) =
    assign_state {| status := CLOSED; failureCount := 0; successCount := 0;
                    openedAt := None |} (fst (recordSuccess scenario_probing)).
Proof.
  split.
  - apply (recordSuccess_half_open scenario_probing); reflexivity.
  - apply (recordSuccess_half_open (fst (recordSuccess scenario_probing))); reflexivity.
Defined.

(** ** Bookkeeping never raises *)

(** C7: when the supplied hooks do not throw, recordSuccess() and
    recordFailure() return normally in every state; recordSuccess() leaves a
    CLOSED or OPEN breaker as it is, and recordFailure() leaves an OPEN breaker
    as it is. *)
Theorem record_calls_never_raise now this :
  hooks_do_not_throw this ->
  snd (recordSuccess this) = Return tt /\
  snd (recordFailure now this) = Return tt /\
  (status (state this) = CLOSED \/ status (state this) = OPEN ->
   recordSuccess this = (this, Return tt)) /\
  (status (state this) = OPEN -> recordFailure now this = (this, Return tt)).
Proof.
  intros Hq.
  pose proof (recordSuccess_snd this Hq) as Hs.
  pose proof (recordFailure_snd now this Hq) as Hf.
  pose proof (recordSuccess_fst this) as Hs'.
  pose proof (recordFailure_fst now this) as Hf'.
  repeat split; try assumption.
  - intros Hst. destruct (recordSuccess this) as [this' r]; simpl in *. subst r. f_equal.
    destruct (status_cases this) as [(_ & _ & _ & E)|[(_ & _ & _ & E)|(E & _)]];
      [rewrite E in Hs'; exact Hs' .. |].
    destruct Hst; congruence.
  - intros Hst. destruct (recordFailure now this) as [this' r]; simpl in *. subst r. f_equal.
    destruct (status_cases this) as [(_ & _ & E1 & E2)|[(E & _)|(E & _)]];
      [rewrite E1, E2 in Hf'; exact Hf' | congruence ..].
Qed.

Lemma scenario_hooks_do_not_throw : hooks_do_not_throw scenario_hooked_opened.
Proof. split; intros f [= <-]; reflexivity. Defined.

Lemma record_calls_never_raise_witness :
  recordSuccess scenario_hooked_opened = (scenario_hooked_opened, Return tt) /\
  recordFailure 1500 scenario_hooked_opened = (scenario_hooked_opened, Return tt).
Proof.
  destruct (record_calls_never_raise 1500 scenario_hooked_opened scenario_hooks_do_not_throw)
    as (_ & _ & Hs & Hf).
  split; [apply Hs; right; reflexivity | apply Hf; reflexivity].
Defined.

(** ** The invariant of reachable states *)

Lemma perform_fst c this :
  fst (perform c this) =
  match c with
  | CallAssertCanExecute now =>
      if isOpen this && (truthy (openedAt (state this)) && timeout_elapsed now this) then
        assign_state {| status := HALF_OPEN; failureCount := 0; successCount := 0;
                        openedAt := openedAt (state this) |} this
      else this
  | CallRecordSuccess =>
      if isHalfOpen this then
        if successThreshold (options this) <=? successCount (state this) + 1 then
          assign_state {| status := CLOSED; failureCount := 0; successCount := 0;
                          openedAt := None |} this
        else
          assign_state {| status := status (state this);
                          failureCount := failureCount (state this);
                          successCount := successCount (state this) + 1;
                          openedAt := openedAt (state this) |} this
      else this
  | CallRecordFailure now =>
      if isClosed this || isHalfOpen this then
        if failureThreshold (options this) <=? failureCount (state this) + 1 then
          assign_state {| status := OPEN; failureCount := 0; successCount := 0;
                          openedAt := Some now |} this
        else
          assign_state {| status := status (state this);
                          failureCount := failureCount (state this) + 1;
                          successCount := successCount (state this);
                          openedAt := openedAt (state this) |} this
      else this
  end.
Proof.
  destruct c; simpl;
    [apply assertCanExecute_fst | apply recordSuccess_fst | apply recordFailure_fst].
Qed.

Ltac step_cases this :=
  let E := fresh "E" in
  let Eo := fresh "Eo" in
  let Ec := fresh "Ec" in
  let Eh := fresh "Eh" in
  destruct (status_cases this) as [(E & Eo & Ec & Eh)|[(E & Eo & Ec & Eh)|(E & Eo & Ec & Eh)]];
  rewrite ?Eo, ?Ec, ?Eh; clear Eo Ec Eh;
  simpl;
  repeat match goal with
         | |- context [if ?b then _ else _] => destruct b eqn:?
         end;
  simpl.

Lemma perform_preserves_invariant c this :
  openedAt_iff_opened (state this) ->
  openedAt_iff_opened (state (fst (perform c this))).
Proof.
  unfold openedAt_iff_opened. intros Hinv. rewrite perform_fst.
  destruct c; step_cases this; try exact Hinv; rewrite ?E; rewrite E in Hinv;
    split; intros H; eauto; try (destruct H; discriminate);
    try (apply Hinv; eauto; fail); try (apply Hinv in H; destruct H; discriminate).
Qed.

(** A call that changes the status leaves both counters at zero; HALF_OPEN is
    entered from OPEN only, and entering CLOSED clears [openedAt]. *)
Lemma perform_transition c this :
  status (state (fst (perform c this))) <> status (state this) ->
  failureCount (state (fst (perform c this))) = 0 /\
  successCount (state (fst (perform c this))) = 0 /\
  (status (state (fst (perform c this))) = HALF_OPEN -> status (state this) = OPEN) /\
  (status (state (fst (perform c this))) = CLOSED ->
   openedAt (state (fst (perform c this))) = None).
Proof.
  rewrite perform_fst.
  destruct c; step_cases this; intros Hne; try congruence; repeat split; congruence.
Qed.

Lemma run_preserves_invariant cs this :
  openedAt_iff_opened (state this) -> openedAt_iff_opened (state (run cs this)).
Proof.
  revert this. induction cs as [|c cs IH]; intros this Hinv; simpl; [exact Hinv|].
  apply IH, perform_preserves_invariant, Hinv.
Qed.

(** C8: in every state reached from the initial state by calls of
    assertCanExecute, recordSuccess and recordFailure, the status is one of
    CLOSED, OPEN and HALF_OPEN; openedAt is present exactly when the status is
    OPEN or HALF_OPEN (a status entered from OPEN only) and absent in CLOSED;
    and any further call that changes the status leaves failureCount and
    successCount at zero. *)
Theorem reachable_state_invariant opts nm hk cs :
  let this := run cs (new_CircuitBreaker opts nm hk) in
  (status (state this) = CLOSED \/ status (state this) = OPEN \/
   status (state this) = HALF_OPEN) /\
  openedAt_iff_opened (state this) /\
  (status (state this) = CLOSED -> openedAt (state this) = None) /\
  (forall c,
     status (state (fst (perform c this))) <> status (state this) ->
     failureCount (state (fst (perform c this))) = 0 /\
     successCount (state (fst (perform c this))) = 0 /\
     (status (state (fst (perform c this))) = HALF_OPEN -> status (state this) = OPEN) /\
     (status (state (fst (perform c this))) = CLOSED ->
      openedAt (state (fst (perform c this))) = None)).
Proof.
  intros this.
  assert (Hinv : openedAt_iff_opened (state this)).
  { apply run_preserves_invariant. unfold openedAt_iff_opened; simpl. split.
    - intros [? [=]].
    - intros [[=]|[=]]. }
  repeat split.
  - destruct (status (state this)); auto.
  - apply Hinv.
  - apply Hinv.
  - intros Hc. destruct (openedAt (state this)) as [t|] eqn:Ht; [|reflexivity].
    destruct Hinv as [Hinv _]. destruct Hinv; [eauto | congruence ..].
  - apply (perform_transition c this); assumption.
  - apply (perform_transition c this); assumption.
  - apply (perform_transition c this); assumption.
  - apply (perform_transition c this); assumption.
Qed.

(** ** The remote extension *)

Section RemoteSteps.

Context {S : Type}.
Implicit Types (this : RemoteCircuitBreaker S) (backend : S).

(** [save] returns when the write does, and otherwise rethrows a
    [ConcurrencyConflictError] as it is and wraps anything else. *)
Lemma save_spec this backend :
  save (this, backend) =
  match storage_put (storage this) (this_name this) (state (engine this)) backend with
  | (backend', Return _) => ((this, backend'), Return tt)
  | (backend', Throw err) =>
      ((this, backend'),
       Throw (if instanceof_ConcurrencyConflictError err then err
              else StorageOperationError "Failed to save circuit breaker state" err))
  end.
Proof.
  unfold save, try_catch, bind, gets, await_storage, ret, throw; simpl.
  destruct (storage_put _ _ _ _) as [backend' [v|err]]; simpl; [reflexivity|].
  destruct (instanceof_ConcurrencyConflictError err); reflexivity.
Qed.

Lemma save_propagates_conflict this backend backend' key :
  storage_put (storage this) (this_name this) (state (engine this)) backend =
    (backend', Throw (ConcurrencyConflictError key)) ->
  save (this, backend) = ((this, backend'), Throw (ConcurrencyConflictError key)).
Proof. intros Hput. rewrite save_spec, Hput. reflexivity. Qed.

(** [safeSave] on an absent entry hands every error of [save] to its own
    handler, which lets only [ItemAlreadyExistsError] through. *)
Lemma safeSave_absent_spec this backend backend1 :
  storage_get (storage this) (this_name this) backend = (backend1, Return None) ->
  safeSave (this, backend) =
  match save (this, backend1) with
  | (w, Return _) => (w, Return tt)
  | (w, Throw err) =>
      (w, Throw (if instanceof_ItemAlreadyExistsError err then err
                 else StorageOperationError "Failed to safeSave circuit breaker state" err))
  end.
Proof.
  intros Hget.
  unfold safeSave, try_catch, bind, gets, await_storage, throw at 1; simpl.
  rewrite Hget; simpl.
  destruct (save (this, backend1)) as [w [[]|err]]; simpl; [reflexivity|].
  destruct (instanceof_ItemAlreadyExistsError err); reflexivity.
Qed.

Lemma safeSave_wraps_conflict this backend backend1 backend2 key :
  storage_get (storage this) (this_name this) backend = (backend1, Return None) ->
  storage_put (storage this) (this_name this) (state (engine this)) backend1 =
    (backend2, Throw (ConcurrencyConflictError key)) ->
  safeSave (this, backend) =
    ((this, backend2),
     Throw (StorageOperationError "Failed to safeSave circuit breaker state"
              (ConcurrencyConflictError key))).
Proof.
  intros Hget Hput.
  rewrite (safeSave_absent_spec _ _ _ Hget), (save_propagates_conflict _ _ _ _ Hput).
  reflexivity.
Qed.

Lemma safeSave_present_spec this backend backend1 entry :
  storage_get (storage this) (this_name this) backend = (backend1, Return (Some entry)) ->
  safeSave (this, backend) =
    ((this, backend1), Throw (ItemAlreadyExistsError (this_name this))).
Proof.
  intros Hget.
  unfold safeSave, try_catch, bind, gets, await_storage, throw; simpl.
  rewrite Hget; reflexivity.
Qed.

Lemma load_spec this backend :
  load (this, backend) =
  match storage_get (storage this) (this_name this) backend with
  | (backend', Return raw) => ((this, backend'), Return (value <$> raw))
  | (backend', Throw err) =>
      ((this, backend'),
       Throw (StorageOperationError "Failed to load circuit breaker state" err))
  end.
Proof.
  unfold load, try_catch, bind, gets, await_storage, ret, throw; simpl.
  destruct (storage_get _ _ _) as [backend' [[entry|]|err]]; reflexivity.
Qed.

End RemoteSteps.

(** C5, on the code: over a backend with no entry whose [put] rejects with
    [ConcurrencyConflictError], save() throws that error itself, while
    safeSave() throws a [StorageOperationError] whose cause is that error. *)
Theorem safeSave_wraps_ConcurrencyConflictError :
  save (scenario_conflicting, tt) =
    ((scenario_conflicting, tt), Throw (ConcurrencyConflictError "test-cb")) /\
  safeSave (scenario_conflicting, tt) =
    ((scenario_conflicting, tt),
     Throw (StorageOperationError "Failed to safeSave circuit breaker state"
              (ConcurrencyConflictError "test-cb"))) /\
  instanceof_ConcurrencyConflictError
    (StorageOperationError "Failed to safeSave circuit breaker state"
       (ConcurrencyConflictError "test-cb")) = false.
Proof.
  split; [| split; [| reflexivity]].
  - apply save_propagates_conflict. reflexivity.
  - apply (safeSave_wraps_conflict scenario_conflicting tt tt tt "test-cb"); reflexivity.
Qed.

(** C6: when the backend's [get] finds an entry under the breaker's name,
    safeSave() throws [ItemAlreadyExistsError] for that name, the instance is
    unchanged, the backend is in the state in which [get] left it, and the one
    call the backend has received is that [get]: no [put]. *)
Theorem safeSave_existing_entry {S} (this : RemoteCircuitBreaker S)
    (backend backend1 : S) (key : string) (entry : VersionedStorageValue) :
  name (engine this) = Some key ->
  storage_get (storage this) key backend = (backend1, Return (Some entry)) ->
  safeSave (this, backend) = ((this, backend1), Throw (ItemAlreadyExistsError key)) /\
  (forall calls,
     safeSave (with_recorded this, (backend, calls)) =
       ((with_recorded this, (backend1, calls ++ [CalledGet key])),
        Throw (ItemAlreadyExistsError key))).
Proof.
  intros Hname Hget.
  assert (Hkey : this_name this = key) by (unfold this_name; rewrite Hname; reflexivity).
  split.
  - rewrite (safeSave_present_spec this backend backend1 entry); rewrite Hkey; auto.
  - intros calls.
    rewrite (safeSave_present_spec (with_recorded this) (backend, calls)
               (backend1, calls ++ [CalledGet key]) entry).
    + unfold this_name; simpl. rewrite Hname. reflexivity.
    + unfold this_name; simpl. rewrite Hname; simpl. rewrite Hget. reflexivity.
Qed.

(** A [MockStorage] that holds an entry for the name is left as it was. *)
Lemma safeSave_present_MockStorage (this : RemoteCircuitBreaker MockStorage)
    (m : MockStorage) (key : string) :
  storage this = mockStorage ->
  name (engine this) = Some key ->
  is_Some (store m !! key) ->
  safeSave (this, m) = ((this, m), Throw (ItemAlreadyExistsError key)).
Proof.
  intros Hst Hname [entry Hentry].
  assert (Hkey : this_name this = key) by (unfold this_name; rewrite Hname; reflexivity).
  rewrite <- Hkey.
  apply (safeSave_present_spec this m m {| value := value entry; version := version entry |}).
  rewrite Hst, Hkey. simpl. unfold MockStorage_get. rewrite Hentry. reflexivity.
Qed.

(** Over a [MockStorage], load() after save() returns the state saved. *)
Lemma save_then_load_MockStorage (this : RemoteCircuitBreaker MockStorage) (m : MockStorage) :
  storage this = mockStorage ->
  snd (save (this, m)) = Return tt /\
  snd (load (fst (save (this, m)))) = Return (Some (state (engine this))).
Proof.
  intros Hst. rewrite save_spec, Hst; simpl. split; [reflexivity|].
  rewrite load_spec, Hst; simpl. unfold MockStorage_get; simpl.
  rewrite lookup_insert_eq. reflexivity.
Qed.

(** [scenario_remote] is what the constructor returns; an empty name is
    refused. *)
Lemma new_RemoteCircuitBreaker_scenario :
  new_RemoteCircuitBreaker scenario_options mockStorage "test-cb" None = Return scenario_remote /\
  new_RemoteCircuitBreaker scenario_options mockStorage "" None =
    Throw (Error "RemoteCircuitBreaker requires a non-empty name").
Proof. split; reflexivity. Qed.

(** The test "should throw if safeSave called with existing key": save(), then
    safeSave(). *)
Lemma safeSave_existing_entry_witness :
  let saved := fst (save (scenario_remote, new_MockStorage)) in
  let entry := {| value := initialState; version := "0" |} in
  store (snd saved) !! "test-cb" = Some entry /\
  safeSave saved = (saved, Throw (ItemAlreadyExistsError "test-cb")) /\
  safeSave (with_recorded (fst saved), (snd saved, [])) =
    ((with_recorded (fst saved), (snd saved, [CalledGet "test-cb"])),
     Throw (ItemAlreadyExistsError "test-cb")).
Proof.
  intros saved entry.
  destruct (safeSave_existing_entry (fst saved) (snd saved) (snd saved) "test-cb" entry
              eq_refl eq_refl) as [H1 H2].
  split; [reflexivity | split; [exact H1 | exact (H2 [])]].
Defined.

(** C10: load() leaves the instance as it was, whatever the backend does: it
    returns the [value] of the entry that [get] resolved to ([undefined] when
    there is none), or throws a [StorageOperationError] wrapping what [get]
    threw; the backend is in the state in which [get] left it. *)
Theorem load_leaves_instance {S} (this : RemoteCircuitBreaker S) (backend : S) :
  fst (fst (load (this, backend))) = this /\
  engine (fst (fst (load (this, backend)))) = engine this /\
  load (this, backend) =
    match storage_get (storage this) (this_name this) backend with
    | (backend', Return raw) => ((this, backend'), Return (value <$> raw))
    | (backend', Throw err) =>
        ((this, backend'),
         Throw (StorageOperationError "Failed to load circuit breaker state" err))
    end.
Proof.
  rewrite load_spec.
  destruct (storage_get _ _ _) as [backend' [raw|err]]; simpl; auto.
Qed.

(** ** The engine over a store of objects behaves as the engine on values *)

Section ObjectStore.

Implicit Types (w : Store) (cl : Client) (v lit : CircuitBreakerState).

Lemma grows_refl w : wf w -> grows w w.
Proof. intros Hwf. repeat split; auto. Qed.

Lemma grows_dom w w' l : grows w w' -> l ∈ dom (heap w) -> l ∈ dom (heap w').
Proof.
  intros (Hkeep & _ & _) Hl. apply elem_of_dom. rewrite (Hkeep l Hl).
  apply elem_of_dom, Hl.
Qed.

Lemma fresh_not_allocated (h : gmap positive CircuitBreakerState) l :
  l ∈ dom h -> l <> fresh (dom h).
Proof. intros Hl ->. exact (is_fresh (dom h) Hl). Qed.

Lemma dom_alloc (h : gmap positive CircuitBreakerState) l l' v :
  l ∈ dom h -> l ∈ dom (<[l' := v]> h).
Proof. intros Hl. rewrite dom_insert. apply elem_of_union_r, Hl. Qed.

Lemma dom_alloc_new (h : gmap positive CircuitBreakerState) l v :
  l ∈ dom (<[l := v]> h).
Proof. rewrite dom_insert. apply elem_of_union_l, elem_of_singleton. reflexivity. Qed.

(** The hook of [setState] changes nothing in the store. *)
Lemma call_onStateChange_fst prev next w :
  fst (Objects.call_onStateChange prev next w) = w.
Proof.
  unfold Objects.call_onStateChange, call, ret.
  destruct (inst_hooks (self w)) as [h|]; [destruct (onStateChange h) |]; reflexivity.
Qed.

(** An object literal handed to [setState]: two allocations, the second
    becoming [this.state]. *)
Lemma alloc_setState_fst lit w :
  fst ((let* next := alloc lit in Objects.setState next) w) =
  let l1 := fresh (dom (heap w)) in
  let h1 := <[l1 := lit]> (heap w) in
  let l2 := fresh (dom h1) in
  {| heap := <[l2 := h1 !!! l1]> h1;
     self := {| state_ref := l2;
                inst_options := inst_options (self w);
                inst_name := inst_name (self w);
                inst_hooks := inst_hooks (self w) |} |}.
Proof.
  unfold Objects.setState, alloc, read, assign_state_ref, bind, gets, modify; simpl.
  apply call_onStateChange_fst.
Qed.

Lemma alloc_setState lit w :
  wf w ->
  matches ((let* next := alloc lit in Objects.setState next) w) (setState lit (view w)) /\
  grows w (fst ((let* next := alloc lit in Objects.setState next) w)).
Proof.
  intros Hwf. unfold wf in Hwf.
  pose proof (fresh_not_allocated _ _ Hwf) as H1.
  pose proof (fresh_not_allocated _ _ (dom_alloc _ _ (fresh (dom (heap w))) lit Hwf)) as H2.
  split; [split|].
  - rewrite alloc_setState_fst, setState_fst. unfold view, current, assign_state; simpl.
    rewrite !lookup_total_insert_eq. reflexivity.
  - unfold Objects.setState, setState, alloc, read, assign_state_ref,
      Objects.call_onStateChange, call_onStateChange, bind, gets, modify, call, ret; simpl.
    destruct (inst_hooks (self w)) as [h|]; [destruct (onStateChange h) |]; simpl;
      try reflexivity.
    rewrite !lookup_total_insert_eq.
    rewrite !lookup_total_insert_ne by congruence. reflexivity.
  - rewrite alloc_setState_fst. unfold grows, wf; simpl. split; [|split].
    + intros l Hl.
      rewrite lookup_insert_ne
        by (apply not_eq_sym, fresh_not_allocated, dom_alloc, Hl).
      rewrite lookup_insert_ne by (apply not_eq_sym, fresh_not_allocated, Hl).
      reflexivity.
    + apply dom_alloc_new.
    + right. intros Hl.
      apply (fresh_not_allocated _ _ (dom_alloc _ _ (fresh (dom (heap w))) lit Hl)).
      reflexivity.
Qed.

Lemma rethrow_matches (body_o : M Store unit) (body_v : M CircuitBreaker unit)
    (op : string) w :
  matches (body_o w) (body_v (view w)) ->
  matches (try_catch body_o (fun err => Objects.call_onError err op >> throw err) w)
          (try_catch body_v (fun err => call_onError err op >> throw err) (view w)) /\
  fst (try_catch body_o (fun err => Objects.call_onError err op >> throw err) w) =
    fst (body_o w).
Proof.
  unfold matches, try_catch.
  destruct (body_o w) as [w' r], (body_v (view w)) as [b' r']; simpl.
  intros [<- <-]. destruct r as [[]|err]; simpl; [auto|].
  unfold bind, Objects.call_onError, call_onError, call, ret, throw; simpl.
  destruct (inst_hooks (self w')) as [h|]; [destruct (onError h) as [g|] |]; simpl; auto.
  destruct (g _ _); simpl; auto.
Qed.

Lemma matches_same {A} w (r : Completion A) : matches (w, r) (view w, r).
Proof. split; reflexivity. Qed.

Ltac by_cases_of_body :=
  repeat match goal with
         | |- context [if ?b then _ else _] => destruct b
         end;
  first [ apply alloc_setState; assumption
        | split; [apply matches_same | apply grows_refl; assumption] ].

Lemma perform_matches c w :
  wf w ->
  matches (Objects.perform c w) (perform c (view w)) /\
  grows w (fst (Objects.perform c w)).
Proof.
  intros Hwf.
  destruct c as [now| |now]; simpl;
    [unfold Objects.assertCanExecute, assertCanExecute
    |unfold Objects.recordSuccess, recordSuccess
    |unfold Objects.recordFailure, recordFailure];
    match goal with
    | |- matches (try_catch ?bo _ w) (try_catch ?bv _ _) /\ _ =>
        assert (Hbody : matches (bo w) (bv (view w)) /\ grows w (fst (bo w)));
        [ unfold isOpen, isClosed, isHalfOpen, timeout_elapsed; simpl; by_cases_of_body
        | destruct Hbody as [Hm Hg];
          pose proof (fun op => rethrow_matches bo bv op w Hm) as Hre;
          split; [apply Hre | rewrite (proj2 (Hre _)); exact Hg] ]
    end.
Qed.

Lemma getState_spec w :
  Objects.getState w =
    ({| heap := <[fresh (dom (heap w)) := current w]> (heap w); self := self w |},
     Return (fresh (dom (heap w)))).
Proof. reflexivity. Qed.

Lemma current_write l v w :
  l <> state_ref (self w) -> current (write l v w) = current w.
Proof. intros Hne. unfold current, write; simpl. apply lookup_total_insert_ne, Hne. Qed.

(** Writing through [this.state] itself would be seen by the engine. *)
Lemma current_write_through v w : current (write (state_ref (self w)) v w) = v.
Proof. unfold current, write; simpl. apply lookup_total_insert_eq. Qed.

Lemma client_act_matches a cl :
  client_wf cl ->
  client_wf (fst (client_act a cl)) /\
  view (world (fst (client_act a cl))) = fst (act a (view (world cl))) /\
  snd (client_act a cl) = snd (act a (view (world cl))).
Proof.
  intros [Hwf Hheld]. destruct a as [c| |i v]; simpl.
  - destruct (perform_matches c (world cl) Hwf) as [[Hv Hr] Hg].
    destruct (Objects.perform c (world cl)) as [w' r]; simpl in *.
    split; [split; simpl|split; [exact Hv | congruence]].
    + apply Hg.
    + intros l Hl. destruct (Hheld l Hl) as [Hdom Hne]. split.
      * apply (grows_dom _ _ _ Hg Hdom).
      * destruct Hg as (_ & _ & [-> | Hnew]); [exact Hne | congruence].
  - pose proof (fresh_not_allocated _ _ Hwf) as Hne.
    split; [split; simpl|split]; simpl.
    + apply dom_alloc, Hwf.
    + intros l [Hl | ->%list_elem_of_singleton]%elem_of_app.
      * destruct (Hheld l Hl). split; [apply dom_alloc; assumption | assumption].
      * split; [apply dom_alloc_new | congruence].
    + unfold view, current; simpl. rewrite lookup_total_insert_ne by congruence. reflexivity.
    + rewrite lookup_total_insert_eq. reflexivity.
  - destruct (held cl !! i) as [l|] eqn:Hi; simpl;
      [| split; [split; assumption | split; reflexivity]].
    destruct (Hheld l (list_elem_of_lookup_2 _ _ _ Hi)) as [Hdom Hne].
    split; [split; simpl|split]; simpl.
    + apply dom_alloc, Hwf.
    + intros l' Hl'. destruct (Hheld l' Hl'). split; [apply dom_alloc; assumption | assumption].
    + unfold view. rewrite current_write by exact Hne. reflexivity.
    + reflexivity.
Qed.

Lemma client_acts_matches prog cl :
  client_wf cl ->
  client_wf (fst (client_acts prog cl)) /\
  view (world (fst (client_acts prog cl))) = fst (acts prog (view (world cl))) /\
  snd (client_acts prog cl) = snd (acts prog (view (world cl))).
Proof.
  revert cl. induction prog as [|a prog IH]; intros cl Hwf; simpl; [auto|].
  destruct (client_act_matches a cl Hwf) as (Hwf' & Hv & Ho).
  destruct (client_act a cl) as [cl' o]; simpl in *.
  destruct (act a (view (world cl))) as [b' o']; simpl in *. subst b' o'.
  destruct (IH cl' Hwf') as (Hwf'' & Hv' & Ho').
  destruct (client_acts prog cl') as [final os]; simpl in *.
  destruct (acts prog (view (world cl'))) as [final' os']; simpl in *.
  split; [exact Hwf'' | split; [exact Hv' | congruence]].
Qed.

End ObjectStore.

(** ** Snapshots *)

(** C9: getState() returns a new object with the fields of the engine's
    current state, other than the object the engine keeps, and leaves the
    store otherwise as it was; overwriting the returned object changes nothing
    of the instance; and in every client program of calls, snapshots and
    writes to the snapshots held, each completion, each snapshot and the
    final state of the instance are those of the engine on values, on which a
    write to a snapshot has no effect. *)
Theorem getState_snapshot_isolation (cl : Client) :
  client_wf cl ->
  (exists snap,
     Objects.getState (world cl) =
       ({| heap := <[snap := current (world cl)]> (heap (world cl));
           self := self (world cl) |},
        Return snap) /\
     (snap ∉ dom (heap (world cl))) /\
     snap <> state_ref (self (world cl)) /\
     forall v, view (write snap v (fst (Objects.getState (world cl)))) = view (world cl)) /\
  (forall prog,
     view (world (fst (client_acts prog cl))) = fst (acts prog (view (world cl))) /\
     snd (client_acts prog cl) = snd (acts prog (view (world cl)))).
Proof.
  intros Hwf. split.
  - exists (fresh (dom (heap (world cl)))).
    destruct Hwf as [Hwf _].
    pose proof (fresh_not_allocated _ _ Hwf) as Hne.
    split; [apply getState_spec|]. split; [apply is_fresh|]. split; [congruence|].
    intros v. rewrite getState_spec. unfold view, current, write; simpl.
    rewrite !lookup_total_insert_ne by congruence. reflexivity.
  - intros prog. apply client_acts_matches, Hwf.
Qed.

Lemma scenario_client_wf : client_wf scenario_client.
Proof.
  split.
  - apply dom_alloc_new.
  - intros l Hl. apply elem_of_nil in Hl. destruct Hl.
Defined.

Lemma getState_snapshot_isolation_witness :
  snd (client_acts scenario_program scenario_client) =
    [ ObsSnapshot initialState;
      ObsWritten;
      ObsCompletion (Return tt);
      ObsCompletion (Return tt);
      ObsSnapshot {| status := CLOSED; failureCount := 1; successCount := 0;
                     openedAt := None |} ].
Proof.
  destruct (getState_snapshot_isolation scenario_client scenario_client_wf) as [_ Hprog].
  destruct (Hprog scenario_program) as [_ ->].
  vm_compute. reflexivity.
Defined.

(** The test "should validate loaded state", on a breaker that has opened:
    load() returns the stored CLOSED state and the breaker stays OPEN. *)
Lemma load_leaves_instance_example :
  snd (load scenario_remote_opened) = Return (Some initialState) /\
  fst (load scenario_remote_opened) = scenario_remote_opened /\
  status (state (engine (fst (fst (load scenario_remote_opened))))) = OPEN.
Proof. repeat split; reflexivity. Qed.

(* ===================================================================== *)
(** * Further properties of the engine *)
(* ===================================================================== *)

Lemma failures_nonneg cs : 0 <= failures cs.
Proof. induction cs as [|[] cs IH]; simpl; lia. Qed.

Lemma successes_nonneg cs : 0 <= successes cs.
Proof. induction cs as [|[] cs IH]; simpl; lia. Qed.

Lemma assign_state_assign v v' this :
  assign_state v (assign_state v' this) = assign_state v this.
Proof. reflexivity. Qed.

(** One call on a CLOSED breaker. *)
Lemma perform_closed c this :
  status (state this) = CLOSED ->
  fst (perform c this) =
  match c with
  | CallRecordFailure now =>
      if failureThreshold (options this) <=? failureCount (state this) + 1 then
        assign_state {| status := OPEN; failureCount := 0; successCount := 0;
                        openedAt := Some now |} this
      else
        assign_state {| status := CLOSED;
                        failureCount := failureCount (state this) + 1;
                        successCount := successCount (state this);
                        openedAt := openedAt (state this) |} this
  | _ => this
  end.
Proof.
  intros Hs. rewrite perform_fst. unfold isOpen, isClosed, isHalfOpen. rewrite Hs.
  destruct c; reflexivity.
Qed.

(** One call on a HALF_OPEN breaker. *)
Lemma perform_half_open c this :
  status (state this) = HALF_OPEN ->
  fst (perform c this) =
  match c with
  | CallAssertCanExecute _ => this
  | CallRecordSuccess =>
      if successThreshold (options this) <=? successCount (state this) + 1 then
        assign_state {| status := CLOSED; failureCount := 0; successCount := 0;
                        openedAt := None |} this
      else
        assign_state {| status := HALF_OPEN;
                        failureCount := failureCount (state this);
                        successCount := successCount (state this) + 1;
                        openedAt := openedAt (state this) |} this
  | CallRecordFailure now =>
      if failureThreshold (options this) <=? failureCount (state this) + 1 then
        assign_state {| status := OPEN; failureCount := 0; successCount := 0;
                        openedAt := Some now |} this
      else
        assign_state {| status := HALF_OPEN;
                        failureCount := failureCount (state this) + 1;
                        successCount := successCount (state this);
                        openedAt := openedAt (state this) |} this
  end.
Proof.
  intros Hs. rewrite perform_fst. unfold isOpen, isClosed, isHalfOpen. rewrite Hs.
  destruct c; reflexivity.
Qed.

(** One call on an OPEN breaker. *)
Lemma perform_open c this :
  status (state this) = OPEN ->
  fst (perform c this) =
  match c with
  | CallAssertCanExecute now =>
      if truthy (openedAt (state this)) && timeout_elapsed now this then
        assign_state {| status := HALF_OPEN; failureCount := 0; successCount := 0;
                        openedAt := openedAt (state this) |} this
      else this
  | _ => this
  end.
Proof.
  intros Hs. rewrite perform_fst. unfold isOpen, isClosed, isHalfOpen. rewrite Hs.
  destruct c; reflexivity.
Qed.

(** Calls on a CLOSED breaker whose failures stay below the threshold. *)
Lemma run_closed_below cs this :
  status (state this) = CLOSED ->
  failureCount (state this) + failures cs < failureThreshold (options this) ->
  run cs this =
    assign_state {| status := CLOSED;
                    failureCount := failureCount (state this) + failures cs;
                    successCount := successCount (state this);
                    openedAt := openedAt (state this) |} this.
Proof.
  revert this. induction cs as [|c cs IH]; intros this Hs Hlt.
  - simpl. rewrite Z.add_0_r, <- Hs. destruct this as [[] ? ? ?]; reflexivity.
  - pose proof (failures_nonneg cs) as Hnn.
    cbn [run]. rewrite (perform_closed c this Hs).
    destruct c as [now| |now]; cbn [failures] in *; try (apply IH; assumption).
    replace (failureThreshold (options this) <=? failureCount (state this) + 1)
      with false by (symmetry; apply Z.leb_gt; lia).
    rewrite IH; simpl; [| reflexivity | lia].
    unfold assign_state; simpl. do 2 f_equal. lia.
Qed.

(** X1: on a CLOSED breaker only failures count.  Successes and gate checks
    change nothing, so the failures need not be consecutive: as long as
    failureCount plus the number of recordFailure() calls stays below
    failureThreshold the breaker is CLOSED with exactly that count, and the
    failure that reaches the threshold opens it. *)
Theorem closed_counts_only_failures this cs :
  status (state this) = CLOSED ->
  failureCount (state this) + failures cs < failureThreshold (options this) ->
  run cs this =
    assign_state {| status := CLOSED;
                    failureCount := failureCount (state this) + failures cs;
                    successCount := successCount (state this);
                    openedAt := openedAt (state this) |} this /\
  (forall now,
     failureThreshold (options this) <= failureCount (state this) + failures cs + 1 ->
     run (cs ++ [CallRecordFailure now]) this =
       assign_state {| status := OPEN; failureCount := 0; successCount := 0;
                       openedAt := Some now |} this).
Proof.
  intros Hs Hlt.
  pose proof (run_closed_below cs this Hs Hlt) as Hrun.
  split; [exact Hrun|].
  intros now Hge. rewrite run_app, Hrun. cbn [run].
  rewrite perform_closed by reflexivity. simpl.
  replace (failureThreshold (options this) <=? failureCount (state this) + failures cs + 1)
    with true by (symmetry; apply Z.leb_le; lia).
  reflexivity.
Qed.

Lemma closed_counts_only_failures_witness :
  run [CallRecordSuccess; CallRecordFailure 10; CallAssertCanExecute 20; CallRecordSuccess]
      scenario_breaker =
    assign_state {| status := CLOSED; failureCount := 1; successCount := 0;
                    openedAt := None |} scenario_breaker /\
  run ([CallRecordSuccess; CallRecordFailure 10; CallAssertCanExecute 20; CallRecordSuccess]
         ++ [CallRecordFailure 30]) scenario_breaker =
    assign_state {| status := OPEN; failureCount := 0; successCount := 0;
                    openedAt := Some 30 |} scenario_breaker.
Proof.
  destruct (closed_counts_only_failures scenario_breaker
              [CallRecordSuccess; CallRecordFailure 10; CallAssertCanExecute 20;
               CallRecordSuccess] eq_refl eq_refl) as [H1 H2].
  split; [exact H1 | apply H2; vm_compute; discriminate].
Defined.

(** Calls on a HALF_OPEN breaker whose counts stay below the thresholds. *)
Lemma run_half_open_below cs this :
  status (state this) = HALF_OPEN ->
  failureCount (state this) + failures cs < failureThreshold (options this) ->
  successCount (state this) + successes cs < successThreshold (options this) ->
  run cs this =
    assign_state {| status := HALF_OPEN;
                    failureCount := failureCount (state this) + failures cs;
                    successCount := successCount (state this) + successes cs;
                    openedAt := openedAt (state this) |} this.
Proof.
  revert this. induction cs as [|c cs IH]; intros this Hs Hf Hsu.
  - simpl. rewrite !Z.add_0_r, <- Hs. destruct this as [[] ? ? ?]; reflexivity.
  - pose proof (failures_nonneg cs) as Hnf. pose proof (successes_nonneg cs) as Hns.
    cbn [run]. rewrite (perform_half_open c this Hs).
    destruct c as [now| |now]; cbn [failures successes] in *.
    + apply IH; assumption.
    + replace (successThreshold (options this) <=? successCount (state this) + 1)
        with false by (symmetry; apply Z.leb_gt; lia).
      rewrite IH; simpl; [| reflexivity | lia | lia].
      unfold assign_state; simpl. do 2 f_equal. lia.
    + replace (failureThreshold (options this) <=? failureCount (state this) + 1)
        with false by (symmetry; apply Z.leb_gt; lia).
      rewrite IH; simpl; [| reflexivity | lia | lia].
      unfold assign_state; simpl. do 2 f_equal. lia.
Qed.

(** X2: on a HALF_OPEN breaker successes and failures are counted side by
    side and neither resets the other, and gate checks change nothing: while
    both sums stay below their thresholds the breaker is HALF_OPEN with
    exactly those counts; the success that then reaches successThreshold
    closes it, and the failure that reaches failureThreshold reopens it. *)
Theorem half_open_counts_both this cs :
  status (state this) = HALF_OPEN ->
  failureCount (state this) + failures cs < failureThreshold (options this) ->
  successCount (state this) + successes cs < successThreshold (options this) ->
  run cs this =
    assign_state {| status := HALF_OPEN;
                    failureCount := failureCount (state this) + failures cs;
                    successCount := successCount (state this) + successes cs;
                    openedAt := openedAt (state this) |} this /\
  (successThreshold (options this) <= successCount (state this) + successes cs + 1 ->
   run (cs ++ [CallRecordSuccess]) this =
     assign_state {| status := CLOSED; failureCount := 0; successCount := 0;
                     openedAt := None |} this) /\
  (forall now,
     failureThreshold (options this) <= failureCount (state this) + failures cs + 1 ->
     run (cs ++ [CallRecordFailure now]) this =
       assign_state {| status := OPEN; failureCount := 0; successCount := 0;
                       openedAt := Some now |} this).
Proof.
  intros Hs Hf Hsu.
  pose proof (run_half_open_below cs this Hs Hf Hsu) as Hrun.
  split; [exact Hrun|]. split.
  - intros Hge. rewrite run_app, Hrun. cbn [run].
    rewrite perform_half_open by reflexivity. simpl.
    replace (successThreshold (options this) <=? successCount (state this) + successes cs + 1)
      with true by (symmetry; apply Z.leb_le; lia).
    reflexivity.
  - intros now Hge. rewrite run_app, Hrun. cbn [run].
    rewrite perform_half_open by reflexivity. simpl.
    replace (failureThreshold (options this) <=? failureCount (state this) + failures cs + 1)
      with true by (symmetry; apply Z.leb_le; lia).
    reflexivity.
Qed.

Lemma half_open_counts_both_witness :
  run [CallRecordSuccess; CallRecordFailure 2100; CallAssertCanExecute 2200] scenario_probing =
    assign_state {| status := HALF_OPEN; failureCount := 1; successCount := 1;
                    openedAt := Some 1000 |} scenario_probing /\
  run ([CallRecordSuccess; CallRecordFailure 2100; CallAssertCanExecute 2200]
         ++ [CallRecordSuccess]) scenario_probing =
    assign_state {| status := CLOSED; failureCount := 0; successCount := 0;
                    openedAt := None |} scenario_probing.
Proof.
  destruct (half_open_counts_both scenario_probing
              [CallRecordSuccess; CallRecordFailure 2100; CallAssertCanExecute 2200]
              eq_refl eq_refl eq_refl) as (H1 & H2 & _).
  split; [exact H1 | apply H2; vm_compute; discriminate].
Defined.

(** X3: an OPEN breaker stays exactly as it is, whatever is called on it, as
    long as every gate check reads a clock earlier than openedAt +
    resetTimeoutMs: successes and failures reported meanwhile are dropped and
    no check admits a probe. *)
Theorem open_until_timeout this t cs :
  status (state this) = OPEN ->
  openedAt (state this) = Some t ->
  gate_before (t + resetTimeoutMs (options this)) cs ->
  run cs this = this.
Proof.
  intros Hs Ht Hcs. induction Hcs as [|c cs Hc _ IH]; [reflexivity|].
  cbn [run]. rewrite (perform_open c this Hs).
  destruct c as [now| |now]; try exact IH.
  unfold timeout_elapsed. rewrite Ht.
  replace (resetTimeoutMs (options this) <=? now - t) with false
    by (symmetry; apply Z.leb_gt; lia).
  rewrite andb_false_r. exact IH.
Qed.

Lemma open_until_timeout_witness :
  run [CallAssertCanExecute 1500; CallRecordSuccess; CallRecordFailure 1600;
       CallAssertCanExecute 1999] scenario_opened = scenario_opened.
Proof.
  apply (open_until_timeout scenario_opened 1000); [reflexivity | reflexivity |].
  repeat constructor.
Defined.

(** An OPEN breaker whose openedAt is 0 or missing is stuck. *)
Lemma open_falsy_is_stuck this cs :
  status (state this) = OPEN ->
  truthy (openedAt (state this)) = false ->
  run cs this = this.
Proof.
  intros Hs Hz. induction cs as [|c cs IH]; [reflexivity|].
  cbn [run]. rewrite (perform_open c this Hs), Hz. destruct c; exact IH.
Qed.

(** X4: a breaker that opens while the clock reads 0 never leaves OPEN: the
    gate's guard [this.state.openedAt && ...] takes the timestamp 0 for a
    missing one, so every later gate check is refused, at any time, and every
    later call leaves the state as it is. *)
Theorem opened_at_zero_is_permanent this cs :
  status (state this) <> OPEN ->
  failureThreshold (options this) <= failureCount (state this) + 1 ->
  run (CallRecordFailure 0 :: cs) this =
    assign_state {| status := OPEN; failureCount := 0; successCount := 0;
                    openedAt := Some 0 |} this.
Proof.
  intros Hs Hge. cbn [run]. rewrite perform_fst.
  assert (Hor : isClosed this || isHalfOpen this = true).
  { destruct (status_cases this) as [(E & _)|[(_ & _ & -> & _)|(_ & _ & _ & ->)]];
      [congruence | reflexivity | apply orb_true_r]. }
  rewrite Hor. apply Z.leb_le in Hge. rewrite Hge.
  apply open_falsy_is_stuck; reflexivity.
Qed.

Lemma opened_at_zero_is_permanent_witness :
  run [CallRecordFailure 0; CallAssertCanExecute 1000; CallAssertCanExecute 86400000;
       CallRecordSuccess] (fst (recordFailure 0 scenario_breaker)) =
    assign_state {| status := OPEN; failureCount := 0; successCount := 0;
                    openedAt := Some 0 |} (fst (recordFailure 0 scenario_breaker)).
Proof.
  apply opened_at_zero_is_permanent; [discriminate | vm_compute; discriminate].
Defined.

(** ** Counters and read-only fields of reachable states *)

Lemma perform_keeps_readonly c this :
  options (fst (perform c this)) = options this /\
  name (fst (perform c this)) = name this /\
  hooks (fst (perform c this)) = hooks this.
Proof.
  rewrite perform_fst.
  destruct c; step_cases this; repeat split.
Qed.

Lemma perform_keeps_range c this :
  0 < failureThreshold (options this) ->
  0 < successThreshold (options this) ->
  counters_in_range (options this) (state this) ->
  counters_in_range (options this) (state (fst (perform c this))).
Proof.
  unfold counters_in_range. intros HF HS (Hf & Hs & Ho & Hc). rewrite perform_fst.
  destruct c; step_cases this;
    repeat match goal with
           | H : (_ <=? _) = false |- _ => apply Z.leb_gt in H
           | H : (_ <=? _) = true |- _ => apply Z.leb_le in H
           end;
    rewrite ?E in *;
    repeat match goal with
           | |- _ /\ _ => split
           | |- _ -> _ => intro
           end;
    try discriminate; try lia; try (apply Ho; assumption); try (apply Hc; assumption);
    try (destruct Ho; [reflexivity | lia]); try (rewrite Hc by reflexivity; lia).
Qed.

(** X5: with positive thresholds, every state reached from a new breaker has
    0 <= failureCount < failureThreshold and 0 <= successCount <
    successThreshold, both counters are 0 while OPEN and successCount is 0
    while CLOSED; and no call ever changes the options, the name or the
    hooks. *)
Theorem reachable_counters_in_range opts nm hk cs :
  0 < failureThreshold opts ->
  0 < successThreshold opts ->
  counters_in_range opts (state (run cs (new_CircuitBreaker opts nm hk))) /\
  options (run cs (new_CircuitBreaker opts nm hk)) = opts /\
  name (run cs (new_CircuitBreaker opts nm hk)) = nm /\
  hooks (run cs (new_CircuitBreaker opts nm hk)) = hk.
Proof.
  intros HF HS.
  assert (Hgen : forall this,
            options this = opts -> name this = nm -> hooks this = hk ->
            counters_in_range opts (state this) ->
            counters_in_range opts (state (run cs this)) /\
            options (run cs this) = opts /\ name (run cs this) = nm /\
            hooks (run cs this) = hk).
  { induction cs as [|c cs IH]; intros this Ho Hn Hh Hr; [simpl; auto|].
    cbn [run]. destruct (perform_keeps_readonly c this) as (Ho' & Hn' & Hh').
    apply IH; try congruence.
    rewrite <- Ho. apply perform_keeps_range; rewrite ?Ho; assumption. }
  apply Hgen; try reflexivity.
  unfold counters_in_range; simpl. repeat split; try lia; discriminate.
Qed.

Lemma reachable_counters_in_range_witness :
  counters_in_range scenario_options
    (state (run [CallRecordFailure 1000; CallRecordFailure 1000; CallAssertCanExecute 2000;
                 CallRecordSuccess; CallRecordFailure 2100]
                (new_CircuitBreaker scenario_options None None))).
Proof.
  apply (reachable_counters_in_range scenario_options None None); reflexivity.
Defined.

(** ** Hooks *)

Lemma perform_without_hooks c this :
  without_hooks (fst (perform c this)) = fst (perform c (without_hooks this)).
Proof.
  rewrite !perform_fst.
  destruct c; unfold isOpen, isClosed, isHalfOpen, timeout_elapsed;
    cbn [without_hooks state options];
    repeat match goal with
           | |- context [if ?b then _ else _] => destruct b
           end;
    reflexivity.
Qed.

(** X6: hooks never take part in a transition: after any sequence of calls
    the state, options and name of a breaker with hooks, even hooks that
    throw, are those of the same breaker run without hooks. *)
Theorem hooks_never_affect_state this cs :
  without_hooks (run cs this) = run cs (without_hooks this).
Proof.
  revert this. induction cs as [|c cs IH]; intros this; [reflexivity|].
  cbn [run]. rewrite IH, perform_without_hooks. reflexivity.
Qed.

(** The handler rethrows the error it was given as soon as [onError]
    returns. *)
Lemma rethrow_after_onError (body : M CircuitBreaker unit) (op : string) this err :
  (forall h g, hooks (fst (body this)) = Some h -> onError h = Some g ->
               forall e m, g e m = Return tt) ->
  snd (body this) = Throw err ->
  snd (try_catch body (fun err => call_onError err op >> throw err) this) = Throw err.
Proof.
  unfold try_catch, bind, call_onError, call, ret, throw.
  destruct (body this) as [this' [[]|err']]; simpl; [congruence|].
  intros Hq [= ->].
  destruct (hooks this') as [h|]; [destruct (onError h) as [g|] eqn:Hg |]; simpl;
    try reflexivity.
  rewrite (Hq h g eq_refl Hg). reflexivity.
Qed.

Lemma setState_snd_throws next this h f e :
  hooks this = Some h ->
  onStateChange h = Some f ->
  (forall prev cur m, f prev cur m = Throw e) ->
  snd (setState next this) = Throw e.
Proof.
  intros Hh Hf He.
  unfold setState, bind, gets, modify, call_onStateChange, call, ret; simpl.
  rewrite Hh, Hf. simpl. apply He.
Qed.

(** A call that replaces the state while [onStateChange] throws. *)
Lemma perform_throws_hook_error c this h f e :
  hooks this = Some h ->
  onStateChange h = Some f ->
  (forall prev cur m, f prev cur m = Throw e) ->
  (forall g, onError h = Some g -> forall err m, g err m = Return tt) ->
  state (fst (perform c this)) <> state this ->
  snd (perform c this) = Throw e.
Proof.
  intros Hh Hf He Hg Hchanged.
  rewrite perform_fst in Hchanged.
  assert (Hon : forall (body : M CircuitBreaker unit) op,
            hooks (fst (body this)) = hooks this ->
            snd (body this) = Throw e ->
            snd (try_catch body (fun err => call_onError err op >> throw err) this) = Throw e).
  { intros body op Hsame Hthrow. apply rethrow_after_onError; [|exact Hthrow].
    intros h' g Hh' Hg'. rewrite Hsame, Hh in Hh'. injection Hh' as <-. eauto. }
  destruct c as [now| |now]; simpl;
    [unfold assertCanExecute | unfold recordSuccess | unfold recordFailure];
    apply Hon;
    revert Hchanged; step_cases this; intros Hchanged;
    try (exfalso; apply Hchanged; reflexivity);
    first [ rewrite setState_fst; reflexivity
          | eapply setState_snd_throws; eassumption ].
Qed.

(** X7: when the onStateChange hook throws, the call that replaced the state
    throws the hook's error to its caller (onError having been told and
    having returned), and the new state stays in place: nothing is rolled
    back. *)
Theorem throwing_onStateChange_keeps_transition c this h f e :
  hooks this = Some h ->
  onStateChange h = Some f ->
  (forall prev cur m, f prev cur m = Throw e) ->
  (forall g, onError h = Some g -> forall err m, g err m = Return tt) ->
  state (fst (perform c this)) <> state this ->
  snd (perform c this) = Throw e /\
  without_hooks (fst (perform c this)) = fst (perform c (without_hooks this)).
Proof.
  intros Hh Hf He Hg Hchanged. split; [| apply perform_without_hooks].
  exact (perform_throws_hook_error c this h f e Hh Hf He Hg Hchanged).
Qed.

Lemma throwing_onStateChange_keeps_transition_witness :
  perform (CallRecordFailure 1000) scenario_throwing_onStateChange =
    (assign_state {| status := CLOSED; failureCount := 1; successCount := 0;
                     openedAt := None |} scenario_throwing_onStateChange,
     Throw (Error "hook failed")).
Proof.
  destruct (throwing_onStateChange_keeps_transition (CallRecordFailure 1000)
              scenario_throwing_onStateChange _ _ (Error "hook failed")
              eq_refl eq_refl (fun _ _ _ => eq_refl)) as [Hthrow _].
  - intros g [= <-]. reflexivity.
  - vm_compute. discriminate.
  - rewrite (surjective_pairing (perform _ _)), Hthrow. reflexivity.
Defined.

(** X8: when the onError hook throws while the gate is refusing a call, the
    caller receives the hook's error in place of "Circuit breaker is open";
    the state is unchanged. *)
Theorem throwing_onError_replaces_error now this t h g e :
  hooks this = Some h ->
  onError h = Some g ->
  (forall err m, g err m = Throw e) ->
  status (state this) = OPEN ->
  openedAt (state this) = Some t ->
  now - t < resetTimeoutMs (options this) ->
  assertCanExecute now this = (this, Throw e).
Proof.
  intros Hh Hg He Hs Ht Hlt.
  unfold assertCanExecute, try_catch, isOpen, timeout_elapsed. rewrite Hs, Ht. simpl.
  replace (resetTimeoutMs (options this) <=? now - t) with false
    by (symmetry; apply Z.leb_gt; lia).
  rewrite andb_false_r. unfold throw at 1; simpl.
  unfold bind, call_onError, call. rewrite Hh, Hg, He. reflexivity.
Qed.

Lemma throwing_onError_replaces_error_witness :
  assertCanExecute 1500 scenario_throwing_onError =
    (scenario_throwing_onError, Throw (Error "hook failed")).
Proof.
  apply (throwing_onError_replaces_error 1500 scenario_throwing_onError 1000 _ _
           (Error "hook failed") eq_refl eq_refl (fun _ _ => eq_refl) eq_refl eq_refl).
  reflexivity.
Defined.

(** On a breaker that is not OPEN the gate returns at once: it changes
    nothing, calls no hook and cannot throw, whatever the hooks are. *)
Theorem assertCanExecute_admits now this :
  status (state this) <> OPEN ->
  assertCanExecute now this = (this, Return tt).
Proof.
  intros Hs. unfold assertCanExecute, try_catch, isOpen.
  rewrite bool_decide_eq_false_2 by exact Hs. reflexivity.
Qed.

Lemma assertCanExecute_admits_witness :
  assertCanExecute 5 scenario_throwing_onStateChange =
    (scenario_throwing_onStateChange, Return tt) /\
  assertCanExecute 2600 scenario_probing = (scenario_probing, Return tt).
Proof.
  split.
  - apply (assertCanExecute_admits 5 scenario_throwing_onStateChange). discriminate.
  - apply (assertCanExecute_admits 2600 scenario_probing). discriminate.
Defined.

(* ===================================================================== *)
(** * The function decorator *)
(* ===================================================================== *)

Section Decorator.

Context {W Args R : Type} (fn : Args -> M W R).

Implicit Types (this : CircuitBreaker) (w : W) (args : Args).

(** A wrapped call, step by step. *)
Lemma withCircuitBreaker_spec now_gate now_failure args this w :
  withCircuitBreaker fn now_gate now_failure args (this, w) =
  match assertCanExecute now_gate this with
  | (b1, Throw err) => ((b1, w), Throw err)
  | (b1, Return _) =>
      match fn args w with
      | (w', Return result) =>
          match recordSuccess b1 with
          | (b2, Return _) => ((b2, w'), Return result)
          | (b2, Throw err) =>
              match recordFailure now_failure b2 with
              | (b3, Return _) => ((b3, w'), Throw err)
              | (b3, Throw err') => ((b3, w'), Throw err')
              end
          end
      | (w', Throw err) =>
          match recordFailure now_failure b1 with
          | (b3, Return _) => ((b3, w'), Throw err)
          | (b3, Throw err') => ((b3, w'), Throw err')
          end
      end
  end.
Proof.
  unfold withCircuitBreaker, bind, try_catch, on_breaker, await_fn, ret, throw; simpl.
  destruct (assertCanExecute now_gate this) as [b1 [[]|err]]; simpl; [|reflexivity].
  destruct (fn args w) as [w' [result|err]]; simpl.
  - destruct (recordSuccess b1) as [b2 [[]|err]]; simpl; [reflexivity|].
    destruct (recordFailure now_failure b2) as [b3 [[]|err']]; reflexivity.
  - destruct (recordFailure now_failure b1) as [b3 [[]|err']]; reflexivity.
Qed.

Lemma hooks_do_not_throw_fst_assert now this :
  hooks_do_not_throw this -> hooks_do_not_throw (fst (assertCanExecute now this)).
Proof.
  intros Hq. rewrite assertCanExecute_fst. destruct (_ && _); exact Hq.
Qed.

Lemma wrapped_call_refused now_gate now_failure args this w t :
  hooks_do_not_throw this ->
  status (state this) = OPEN ->
  openedAt (state this) = Some t ->
  now_gate - t < resetTimeoutMs (options this) ->
  withCircuitBreaker fn now_gate now_failure args (this, w) =
    ((this, w), Throw (Error "Circuit breaker is open")).
Proof.
  intros Hq Hs Ht Hlt. rewrite withCircuitBreaker_spec.
  pose proof (assertCanExecute_fst now_gate this) as Hf.
  pose proof (assertCanExecute_snd now_gate this Hq) as Hr.
  unfold isOpen, timeout_elapsed in Hf, Hr. rewrite Hs, Ht in Hf, Hr. simpl in Hf, Hr.
  replace (resetTimeoutMs (options this) <=? now_gate - t) with false in Hf, Hr
    by (symmetry; apply Z.leb_gt; lia).
  rewrite andb_false_r in Hf, Hr. simpl in Hf, Hr.
  destruct (assertCanExecute now_gate this) as [b1 r]; simpl in *. subst. reflexivity.
Qed.

(** X9: while the gate refuses, a wrapped call throws "Circuit breaker is
    open" without running the protected function and without recording a
    failure: the breaker and the function's world are as before. *)
Theorem withCircuitBreaker_refused now_gate now_failure args this w t :
  hooks_do_not_throw this ->
  status (state this) = OPEN ->
  openedAt (state this) = Some t ->
  now_gate - t < resetTimeoutMs (options this) ->
  withCircuitBreaker fn now_gate now_failure args (this, w) =
    ((this, w), Throw (Error "Circuit breaker is open")).
Proof. apply wrapped_call_refused. Qed.

(** X10: when the gate admits the call and the hooks do not throw, the
    wrapped call hands back exactly what the protected function did: its
    result after recordSuccess(), or its error after recordFailure(); the
    function ran once. *)
Theorem withCircuitBreaker_admitted now_gate now_failure args this w :
  hooks_do_not_throw this ->
  snd (assertCanExecute now_gate this) = Return tt ->
  withCircuitBreaker fn now_gate now_failure args (this, w) =
  match fn args w with
  | (w', Return result) =>
      ((fst (recordSuccess (fst (assertCanExecute now_gate this))), w'), Return result)
  | (w', Throw err) =>
      ((fst (recordFailure now_failure (fst (assertCanExecute now_gate this))), w'), Throw err)
  end.
Proof.
  intros Hq Hadmit. rewrite withCircuitBreaker_spec.
  pose proof (hooks_do_not_throw_fst_assert now_gate this Hq) as Hq1.
  destruct (assertCanExecute now_gate this) as [b1 r]; simpl in *. subst r.
  pose proof (recordSuccess_snd b1 Hq1) as Hs.
  pose proof (recordFailure_snd now_failure b1 Hq1) as Hf.
  destruct (fn args w) as [w' [result|err]].
  - destruct (recordSuccess b1) as [b2 r]; simpl in *. subst r. reflexivity.
  - destruct (recordFailure now_failure b1) as [b3 r]; simpl in *. subst r. reflexivity.
Qed.

(** A wrapped call that rejects on a breaker that is not OPEN. *)
Lemma wrapped_call_rejects now_gate now_failure args this w err :
  hooks_do_not_throw this ->
  status (state this) <> OPEN ->
  snd (fn args w) = Throw err ->
  withCircuitBreaker fn now_gate now_failure args (this, w) =
    ((fst (recordFailure now_failure this), fst (fn args w)), Throw err).
Proof.
  intros Hq Hs Hfn. rewrite withCircuitBreaker_spec.
  unfold assertCanExecute at 1, try_catch at 1, isOpen.
  rewrite bool_decide_eq_false_2 by exact Hs. simpl.
  destruct (fn args w) as [w' r]; simpl in *. subst r.
  pose proof (recordFailure_snd now_failure this Hq) as Hf.
  destruct (recordFailure now_failure this) as [b3 r]; simpl in *. subst r. reflexivity.
Qed.

Lemma wrapped_calls_app calls1 calls2 (s : Guarded W) :
  fst (wrapped_calls fn (calls1 ++ calls2) s) =
  fst (wrapped_calls fn calls2 (fst (wrapped_calls fn calls1 s))).
Proof.
  revert s. induction calls1 as [|[[ng nf] a] calls1 IH]; intros s; simpl; [reflexivity|].
  destruct (withCircuitBreaker fn ng nf a s) as [s' r].
  specialize (IH s').
  destruct (wrapped_calls fn (calls1 ++ calls2) s') as [final rs].
  destruct (wrapped_calls fn calls1 s') as [mid rs1]. simpl in *. exact IH.
Qed.

(** Rejecting calls below the threshold are only counted. *)
Lemma wrapped_calls_rejecting_below calls this w :
  hooks_do_not_throw this ->
  status (state this) = CLOSED ->
  (forall args0 w0, exists err, snd (fn args0 w0) = Throw err) ->
  failureCount (state this) + Z.of_nat (length calls) < failureThreshold (options this) ->
  fst (fst (wrapped_calls fn calls (this, w))) =
    assign_state {| status := CLOSED;
                    failureCount := failureCount (state this) + Z.of_nat (length calls);
                    successCount := successCount (state this);
                    openedAt := openedAt (state this) |} this.
Proof.
  intros Hq Hs Hrej. revert this w Hq Hs.
  induction calls as [|[[ng nf] a] calls IH]; intros this w Hq Hs Hlt.
  - simpl. rewrite Z.add_0_r, <- Hs. destruct this as [[] ? ? ?]; reflexivity.
  - rewrite length_cons, Nat2Z.inj_succ in Hlt. simpl.
    destruct (Hrej a w) as [err Herr].
    rewrite (wrapped_call_rejects ng nf a this w err Hq) by (congruence || exact Herr).
    rewrite recordFailure_fst. unfold isClosed. rewrite Hs. simpl.
    replace (failureThreshold (options this) <=? failureCount (state this) + 1)
      with false by (symmetry; apply Z.leb_gt; lia).
    match goal with
    | |- context [wrapped_calls fn calls (?b, ?w')] =>
        specialize (IH b w' Hq eq_refl); destruct (wrapped_calls fn calls (b, w')) as [final rs]
    end.
    simpl in *. rewrite IH by lia. unfold assign_state; simpl. do 2 f_equal. lia.
Qed.

(** X11: a protected function that always rejects trips the breaker: on a
    CLOSED breaker with failureCount 0 and hooks that do not throw, the
    wrapped call numbered failureThreshold leaves the breaker OPEN, opened at
    that call's failure time, and from then on every wrapped call whose gate
    reads a clock before openedAt + resetTimeoutMs is refused without running
    the function. *)
Theorem withCircuitBreaker_trips calls now_gate now_failure args this w :
  hooks_do_not_throw this ->
  status (state this) = CLOSED ->
  failureCount (state this) = 0 ->
  (forall args0 w0, exists err, snd (fn args0 w0) = Throw err) ->
  Z.of_nat (length calls) + 1 = failureThreshold (options this) ->
  fst (fst (wrapped_calls fn (calls ++ [(now_gate, now_failure, args)]) (this, w))) =
    assign_state {| status := OPEN; failureCount := 0; successCount := 0;
                    openedAt := Some now_failure |} this /\
  (forall now_gate' now_failure' args',
     now_gate' - now_failure < resetTimeoutMs (options this) ->
     withCircuitBreaker fn now_gate' now_failure' args'
       (fst (wrapped_calls fn (calls ++ [(now_gate, now_failure, args)]) (this, w))) =
     (fst (wrapped_calls fn (calls ++ [(now_gate, now_failure, args)]) (this, w)),
      Throw (Error "Circuit breaker is open"))).
Proof.
  intros Hq Hs H0 Hrej HT.
  rewrite wrapped_calls_app.
  pose proof (wrapped_calls_rejecting_below calls this w Hq Hs Hrej) as Hbelow.
  rewrite H0 in Hbelow. specialize (Hbelow ltac:(lia)).
  destruct (wrapped_calls fn calls (this, w)) as [[b w1] rs]; simpl in Hbelow.
  cbn [fst wrapped_calls].
  destruct (Hrej args w1) as [err Herr].
  assert (Hqb : hooks_do_not_throw b) by (rewrite Hbelow; exact Hq).
  assert (Hsb : status (state b) <> OPEN) by (rewrite Hbelow; discriminate).
  rewrite (wrapped_call_rejects now_gate now_failure args b w1 err Hqb Hsb Herr).
  simpl. rewrite recordFailure_fst, Hbelow. unfold isClosed; simpl.
  replace (failureThreshold (options this) <=? 0 + Z.of_nat (length calls) + 1)
    with true by (symmetry; apply Z.leb_le; lia).
  split; [reflexivity|].
  intros ng' nf' a' Hlt.
  apply (wrapped_call_refused ng' nf' a' _ _ now_failure); [exact Hq | reflexivity ..|].
  exact Hlt.
Qed.

(** X12: [recordSuccess()] runs inside the [try] of the wrapper, so when its
    state-change hook throws on a probing breaker the same call goes on to
    [recordFailure()]: the function resolved, yet the caller receives the
    hook's error and the breaker has recorded both a success and a failure. *)
Theorem withCircuitBreaker_success_also_recorded_as_failure
    now_gate now_failure args this w w' result h f e :
  hooks this = Some h ->
  onStateChange h = Some f ->
  (forall prev cur m, f prev cur m = Throw e) ->
  (forall g, onError h = Some g -> forall err m, g err m = Return tt) ->
  status (state this) = HALF_OPEN ->
  fn args w = (w', Return result) ->
  withCircuitBreaker fn now_gate now_failure args (this, w) =
    ((fst (recordFailure now_failure (fst (recordSuccess this))), w'), Throw e) /\
  state (fst (recordFailure now_failure (fst (recordSuccess this)))) <>
    state (fst (recordSuccess this)).
Proof.
  intros Hh Hf He Hg Hs Hfn. rewrite withCircuitBreaker_spec.
  unfold assertCanExecute at 1, try_catch at 1, isOpen.
  rewrite bool_decide_eq_false_2 by congruence. simpl. rewrite Hfn.
  assert (Hchanged1 : state (fst (recordSuccess this)) <> state this).
  { rewrite recordSuccess_fst. unfold isHalfOpen. rewrite Hs; simpl.
    destruct (_ <=? _); simpl; intros E;
      [rewrite <- E in Hs; discriminate | apply (f_equal successCount) in E; simpl in E; lia]. }
  pose proof (perform_throws_hook_error CallRecordSuccess this h f e Hh Hf He Hg Hchanged1)
    as Hthrow1.
  simpl in Hthrow1.
  assert (Hh2 : hooks (fst (recordSuccess this)) = Some h).
  { rewrite recordSuccess_fst. destruct (isHalfOpen this); [destruct (_ <=? _) |]; exact Hh. }
  assert (Hs2 : status (state (fst (recordSuccess this))) <> OPEN).
  { rewrite recordSuccess_fst. unfold isHalfOpen. rewrite Hs; simpl.
    destruct (_ <=? _); simpl; discriminate. }
  assert (Hchanged2 : state (fst (recordFailure now_failure (fst (recordSuccess this)))) <>
                      state (fst (recordSuccess this))).
  { rewrite recordFailure_fst.
    destruct (status_cases (fst (recordSuccess this)))
      as [(E & _)|[(_ & _ & -> & _)|(_ & _ & _ & ->)]]; [congruence | |];
      rewrite ?orb_true_r; simpl; destruct (_ <=? _); simpl;
      intros E; first [ apply (f_equal status) in E; simpl in E; congruence
                      | apply (f_equal failureCount) in E; simpl in E; lia ]. }
  pose proof (perform_throws_hook_error (CallRecordFailure now_failure) _ h f e
                Hh2 Hf He Hg Hchanged2) as Hthrow2.
  simpl in Hthrow2.
  destruct (recordSuccess this) as [b2 r2]; simpl in *. subst r2.
  destruct (recordFailure now_failure b2) as [b3 r3]; simpl in *. subst r3.
  split; [reflexivity | exact Hchanged2].
Qed.

End Decorator.

Lemma withCircuitBreaker_refused_witness :
  withCircuitBreaker counting_fail 1500 1501 tt (scenario_hooked_opened, 2%nat) =
    ((scenario_hooked_opened, 2%nat), Throw (Error "Circuit breaker is open")).
Proof.
  apply (withCircuitBreaker_refused counting_fail 1500 1501 tt scenario_hooked_opened
           2%nat 1000 scenario_hooks_do_not_throw eq_refl eq_refl).
  reflexivity.
Defined.

Lemma withCircuitBreaker_admitted_witness :
  withCircuitBreaker counting_ok 5 6 tt (scenario_breaker, 0%nat) =
    ((scenario_breaker, 1%nat), Return "ok") /\
  withCircuitBreaker counting_fail 5 6 tt (scenario_breaker, 0%nat) =
    ((assign_state {| status := CLOSED; failureCount := 1; successCount := 0;
                      openedAt := None |} scenario_breaker, 1%nat),
     Throw (Error "fail")).
Proof.
  split.
  - apply (withCircuitBreaker_admitted counting_ok 5 6 tt scenario_breaker 0%nat I eq_refl).
  - apply (withCircuitBreaker_admitted counting_fail 5 6 tt scenario_breaker 0%nat I eq_refl).
Defined.

(** The test "should throw if circuit is open": two rejecting calls, then a
    third that is refused. *)
Lemma withCircuitBreaker_trips_witness :
  fst (fst (wrapped_calls counting_fail ([(10, 11, tt)] ++ [(20, 21, tt)])
              (scenario_breaker, 0%nat))) =
    assign_state {| status := OPEN; failureCount := 0; successCount := 0;
                    openedAt := Some 21 |} scenario_breaker /\
  snd (withCircuitBreaker counting_fail 30 31 tt
         (fst (wrapped_calls counting_fail ([(10, 11, tt)] ++ [(20, 21, tt)])
                 (scenario_breaker, 0%nat)))) =
    Throw (Error "Circuit breaker is open").
Proof.
  destruct (withCircuitBreaker_trips counting_fail [(10, 11, tt)] 20 21 tt scenario_breaker
              0%nat I eq_refl eq_refl) as [Hopen Hrefused].
  - intros a0 w0. exists (Error "fail"). reflexivity.
  - reflexivity.
  - split; [exact Hopen|]. rewrite (Hrefused 30 31 tt); reflexivity.
Defined.

Lemma withCircuitBreaker_success_also_recorded_as_failure_witness :
  withCircuitBreaker counting_ok 2100 2101 tt (scenario_throwing_probing, 0%nat) =
    ((assign_state {| status := HALF_OPEN; failureCount := 1; successCount := 1;
                      openedAt := Some 1000 |} scenario_throwing_probing, 1%nat),
     Throw (Error "hook failed")).
Proof.
  destruct (withCircuitBreaker_success_also_recorded_as_failure counting_ok 2100 2101 tt
              scenario_throwing_probing 0%nat 1%nat "ok" _ _ (Error "hook failed")
              eq_refl eq_refl (fun _ _ _ => eq_refl)) as [Hcall _].
  - intros g [= <-]. reflexivity.
  - reflexivity.
  - reflexivity.
  - exact Hcall.
Defined.

(* ===================================================================== *)
(** * Further properties of the remote extension *)
(* ===================================================================== *)

Section RemoteCalls.

Context {S : Type}.
Implicit Types (this : RemoteCircuitBreaker S) (backend : S) (calls : list StorageCall).

Lemma this_name_with_recorded this : this_name (with_recorded this) = this_name this.
Proof. reflexivity. Qed.

(** X13: save() makes exactly one call to the backend, a [put] of the current
    state under the breaker's name, and never reads; it returns when the
    write resolves, rethrows a [ConcurrencyConflictError] as it is, and wraps
    any other error in a [StorageOperationError] that carries it as cause.
    The instance is unchanged in every case. *)
Theorem save_puts_once this backend calls :
  save (with_recorded this, (backend, calls)) =
  match storage_put (storage this) (this_name this) (state (engine this)) backend with
  | (backend', Return _) =>
      ((with_recorded this,
        (backend', calls ++ [CalledPut (this_name this) (state (engine this))])),
       Return tt)
  | (backend', Throw err) =>
      ((with_recorded this,
        (backend', calls ++ [CalledPut (this_name this) (state (engine this))])),
       Throw (if instanceof_ConcurrencyConflictError err then err
              else StorageOperationError "Failed to save circuit breaker state" err))
  end.
Proof.
  rewrite save_spec. simpl. rewrite this_name_with_recorded.
  destruct (storage_put _ _ _ _) as [backend' [v|err]]; reflexivity.
Qed.

(** X14: safeSave() on a name without an entry reads once and then writes
    once.  When the write resolves it returns; when the write rejects, with
    whatever error, the caller receives a [StorageOperationError] "Failed to
    safeSave ..." whose cause is the error save() threw: the
    [ConcurrencyConflictError] itself, or save()'s own [StorageOperationError]
    around any other error. *)
Theorem safeSave_absent_entry this backend backend1 calls :
  storage_get (storage this) (this_name this) backend = (backend1, Return None) ->
  safeSave (with_recorded this, (backend, calls)) =
  match storage_put (storage this) (this_name this) (state (engine this)) backend1 with
  | (backend2, Return _) =>
      ((with_recorded this,
        (backend2, calls ++ [CalledGet (this_name this);
                             CalledPut (this_name this) (state (engine this))])),
       Return tt)
  | (backend2, Throw err) =>
      ((with_recorded this,
        (backend2, calls ++ [CalledGet (this_name this);
                             CalledPut (this_name this) (state (engine this))])),
       Throw (StorageOperationError "Failed to safeSave circuit breaker state"
                (if instanceof_ConcurrencyConflictError err then err
                 else StorageOperationError "Failed to save circuit breaker state" err)))
  end.
Proof.
  intros Hget.
  rewrite (safeSave_absent_spec (with_recorded this) (backend, calls)
             (backend1, calls ++ [CalledGet (this_name this)]))
    by (simpl; rewrite this_name_with_recorded, Hget; reflexivity).
  rewrite save_spec. simpl. rewrite this_name_with_recorded.
  destruct (storage_put _ _ _ _) as [backend2 [v|err]]; simpl; rewrite <- app_assoc; simpl;
    [reflexivity|].
  destruct err; reflexivity.
Qed.

(** X15: when the read of safeSave() rejects, nothing is written: the backend
    has received the one [get], and the caller receives a
    [StorageOperationError] "Failed to safeSave ..." around the error, or the
    error itself when the backend rejected with an [ItemAlreadyExistsError]. *)
Theorem safeSave_read_fails this backend backend1 calls err :
  storage_get (storage this) (this_name this) backend = (backend1, Throw err) ->
  safeSave (with_recorded this, (backend, calls)) =
    ((with_recorded this, (backend1, calls ++ [CalledGet (this_name this)])),
     Throw (if instanceof_ItemAlreadyExistsError err then err
            else StorageOperationError "Failed to safeSave circuit breaker state" err)).
Proof.
  intros Hget.
  unfold safeSave, try_catch, bind, gets, await_storage, throw at 1; simpl.
  rewrite this_name_with_recorded, Hget; simpl.
  destruct (instanceof_ItemAlreadyExistsError err); reflexivity.
Qed.

(** X16: load() makes exactly one call to the backend, a [get] under the
    breaker's name, and never writes; every error of the read, a
    [ConcurrencyConflictError] included, reaches the caller wrapped in a
    [StorageOperationError] "Failed to load ...". *)
Theorem load_gets_once this backend calls :
  load (with_recorded this, (backend, calls)) =
  match storage_get (storage this) (this_name this) backend with
  | (backend', Return raw) =>
      ((with_recorded this, (backend', calls ++ [CalledGet (this_name this)])),
       Return (value <$> raw))
  | (backend', Throw err) =>
      ((with_recorded this, (backend', calls ++ [CalledGet (this_name this)])),
       Throw (StorageOperationError "Failed to load circuit breaker state" err))
  end.
Proof.
  rewrite load_spec. simpl. rewrite this_name_with_recorded.
  destruct (storage_get _ _ _) as [backend' [raw|err]]; reflexivity.
Qed.

End RemoteCalls.

Lemma safeSave_absent_entry_witness :
  safeSave (with_recorded scenario_remote, (new_MockStorage, [])) =
    ((with_recorded scenario_remote,
      ({| store := {[ "test-cb" := {| value := initialState; version := "0" |} ]};
          issued := 1 |},
       [CalledGet "test-cb"; CalledPut "test-cb" initialState])),
     Return tt) /\
  snd (safeSave (with_recorded scenario_conflicting, (tt, []))) =
    Throw (StorageOperationError "Failed to safeSave circuit breaker state"
             (ConcurrencyConflictError "test-cb")).
Proof.
  split.
  - rewrite (safeSave_absent_entry scenario_remote new_MockStorage new_MockStorage [] eq_refl).
    reflexivity.
  - rewrite (safeSave_absent_entry scenario_conflicting tt tt [] eq_refl). reflexivity.
Defined.

(** The test "should throw StorageOperationError on storage failure". *)
Lemma safeSave_read_fails_witness :
  safeSave (with_recorded scenario_bad, (tt, [])) =
    ((with_recorded scenario_bad, (tt, [CalledGet "test-cb"])),
     Throw (StorageOperationError "Failed to safeSave circuit breaker state" (Error "fail"))).
Proof.
  apply (safeSave_read_fails scenario_bad tt tt [] (Error "fail")). reflexivity.
Defined.

(** X17: over a [MockStorage], save() always returns: the extension passes no
    version to [put], so whatever entry and version the store holds under the
    name is replaced, and every other key is left alone.  A load() that
    follows returns the state that was saved, equal in status, failureCount,
    successCount and openedAt. *)
Theorem save_load_MockStorage (e : CircuitBreaker) (m : MockStorage) :
  let this := {| engine := e; storage := mockStorage |} in
  let saved := {| store := <[this_name this :=
                               {| value := state e; version := pretty (issued m) |}]> (store m);
                  issued := S (issued m) |} in
  save (this, m) = ((this, saved), Return tt) /\
  load (this, saved) = ((this, saved), Return (Some (state e))) /\
  (forall key, key <> this_name this -> store saved !! key = store m !! key).
Proof.
  intros this saved. split; [|split].
  - rewrite save_spec. reflexivity.
  - rewrite load_spec. simpl. unfold MockStorage_get. simpl.
    rewrite lookup_insert_eq. reflexivity.
  - intros key Hne. simpl. apply lookup_insert_ne. congruence.
Qed.

(** X18: over a [MockStorage] with no entry under the name, safeSave() writes
    the state and returns; a second safeSave() then throws
    [ItemAlreadyExistsError] and leaves the store as the first one left it;
    and once the entry is deleted safeSave() succeeds again. *)
Theorem safeSave_twice_MockStorage (e : CircuitBreaker) (m : MockStorage) :
  let this := {| engine := e; storage := mockStorage |} in
  let saved := {| store := <[this_name this :=
                               {| value := state e; version := pretty (issued m) |}]> (store m);
                  issued := S (issued m) |} in
  store m !! this_name this = None ->
  safeSave (this, m) = ((this, saved), Return tt) /\
  safeSave (this, saved) = ((this, saved), Throw (ItemAlreadyExistsError (this_name this))) /\
  snd (safeSave (this, fst (MockStorage_delete (this_name this) saved))) = Return tt.
Proof.
  intros this saved Hnone. split; [|split].
  - rewrite (safeSave_absent_spec this m m)
      by (simpl; unfold MockStorage_get; rewrite Hnone; reflexivity).
    rewrite save_spec. reflexivity.
  - apply (safeSave_present_spec this saved saved
             {| value := state e; version := pretty (issued m) |}).
    simpl. unfold MockStorage_get. simpl. rewrite lookup_insert_eq. reflexivity.
  - rewrite (safeSave_absent_spec this _ (fst (MockStorage_delete (this_name this) saved)))
      by (simpl; unfold MockStorage_get; simpl; rewrite lookup_delete_eq; reflexivity).
    rewrite save_spec. reflexivity.
Qed.

Lemma safeSave_twice_MockStorage_witness :
  let saved := {| store := {[ "test-cb" := {| value := initialState; version := "0" |} ]};
                  issued := 1 |} in
  safeSave (scenario_remote, new_MockStorage) = ((scenario_remote, saved), Return tt) /\
  safeSave (scenario_remote, saved) =
    ((scenario_remote, saved), Throw (ItemAlreadyExistsError "test-cb")).
Proof.
  intros saved.
  destruct (safeSave_twice_MockStorage (engine scenario_remote) new_MockStorage eq_refl)
    as (H1 & H2 & _).
  split; [exact H1 | exact H2].
Defined.

(* ===================================================================== *)
(** * The Cloudflare KV adapter *)
(* ===================================================================== *)

Section CloudflareKV.

Context {K : Type} (kv : KVNamespace K).

Lemma state_fields_lookup (v : CircuitBreakerState) :
  state_fields v !! "value" = None /\
  state_fields v !! "version" = None /\
  state_fields v !! "status" = Some (JStr (status_name (status v))) /\
  state_fields v !! "failureCount" = Some (JNum (failureCount v)) /\
  state_fields v !! "successCount" = Some (JNum (successCount v)) /\
  state_fields v !! "openedAt" = JNum <$> openedAt v.
Proof.
  unfold state_fields. destruct (openedAt v) as [t|]; simpl;
    repeat split; simplify_map_eq; reflexivity.
Qed.

(** X19: what [put] writes is one flat JSON object, the fields of the state
    beside [version], and [put] resolves to that version.  When the namespace
    hands this object back, [get] resolves to an object with the same
    [version], with status, failureCount, successCount and openedAt at its top
    level, and with no [value] property: the property that
    [RemoteCircuitBreaker.load] returns is [undefined] on it. *)
Theorem CloudflareKVStorage_put_get key v iso iso' k k1 k2 :
  kv_put kv key (JObj (<["version" := JStr iso]> (state_fields v))) k = (k1, Return tt) ->
  kv_get_json kv key k1 = (k2, Return (JObj (<["version" := JStr iso]> (state_fields v)))) ->
  CloudflareKVStorage_put kv key v iso k = (k1, Return iso) /\
  exists obj,
    CloudflareKVStorage_get kv key iso' k1 = (k2, Return (Some obj)) /\
    obj !! "value" = None /\
    obj !! "version" = Some (JStr iso) /\
    obj !! "status" = Some (JStr (status_name (status v))) /\
    obj !! "failureCount" = Some (JNum (failureCount v)) /\
    obj !! "successCount" = Some (JNum (successCount v)) /\
    obj !! "openedAt" = JNum <$> openedAt v.
Proof.
  intros Hput Hget.
  destruct (state_fields_lookup v) as (Hval & Hver & Hst & Hfc & Hsc & Hoa).
  split.
  - unfold CloudflareKVStorage_put, bind. rewrite Hput. reflexivity.
  - eexists. split.
    + unfold CloudflareKVStorage_get, bind. rewrite Hget. simpl.
      rewrite lookup_insert_eq. reflexivity.
    + rewrite lookup_insert_eq, !lookup_insert_ne by discriminate. auto 10.
Qed.

(** X20: [get] resolves to [undefined] when the namespace has nothing under
    the key ([null]) or holds a JSON scalar there; an error of the namespace
    reaches the caller as it is; and for a stored array, or a stored object
    whose [version] is missing or not a string, the version handed out is the
    time of the read, every other property of the object being passed on. *)
Theorem CloudflareKVStorage_get_edges key iso k k1 :
  (forall j, kv_get_json kv key k = (k1, Return j) ->
     match j with
     | JNull | JBool _ | JNum _ | JStr _ =>
         CloudflareKVStorage_get kv key iso k = (k1, Return None)
     | JArr _ =>
         exists obj,
           CloudflareKVStorage_get kv key iso k = (k1, Return (Some obj)) /\
           obj !! "version" = Some (JStr iso)
     | JObj fields =>
         (forall ver, fields !! "version" <> Some (JStr ver)) ->
         exists obj,
           CloudflareKVStorage_get kv key iso k = (k1, Return (Some obj)) /\
           obj !! "version" = Some (JStr iso) /\
           (forall p, p <> "version" -> obj !! p = fields !! p)
     end) /\
  (forall err, kv_get_json kv key k = (k1, Throw err) ->
     CloudflareKVStorage_get kv key iso k = (k1, Throw err)).
Proof.
  split.
  - intros j Hj. unfold CloudflareKVStorage_get, bind. rewrite Hj.
    destruct j as [| b | n | s | items | fields]; try reflexivity.
    { eexists. split; [reflexivity | apply lookup_insert_eq]. }
    intros Hnover. eexists. split; [reflexivity|]. split.
    + rewrite lookup_insert_eq.
      destruct (fields !! "version") as [[]|] eqn:E; try reflexivity.
      exfalso. eapply Hnover. reflexivity.
    + intros p Hp. apply lookup_insert_ne. congruence.
  - intros err Herr. unfold CloudflareKVStorage_get, bind. rewrite Herr. reflexivity.
Qed.

End CloudflareKV.

Lemma CloudflareKVStorage_put_get_witness :
  CloudflareKVStorage_put memoryKV "test-cb" (state scenario_opened) "2026-01-01T00:00:00.000Z" ∅
    = ({[ "test-cb" := JObj (<["version" := JStr "2026-01-01T00:00:00.000Z"]>
                               (state_fields (state scenario_opened))) ]},
       Return "2026-01-01T00:00:00.000Z") /\
  exists obj,
    snd (CloudflareKVStorage_get memoryKV "test-cb" "2026-01-02T00:00:00.000Z"
           {[ "test-cb" := JObj (<["version" := JStr "2026-01-01T00:00:00.000Z"]>
                                   (state_fields (state scenario_opened))) ]})
      = Return (Some obj) /\
    obj !! "value" = None /\
    obj !! "status" = Some (JStr "OPEN") /\
    obj !! "openedAt" = Some (JNum 1000).
Proof.
  destruct (CloudflareKVStorage_put_get memoryKV "test-cb" (state scenario_opened)
              "2026-01-01T00:00:00.000Z" "2026-01-02T00:00:00.000Z" ∅
              {[ "test-cb" := JObj (<["version" := JStr "2026-01-01T00:00:00.000Z"]>
                                      (state_fields (state scenario_opened))) ]}
              {[ "test-cb" := JObj (<["version" := JStr "2026-01-01T00:00:00.000Z"]>
                                      (state_fields (state scenario_opened))) ]})
    as (Hput & obj & Hget & Hval & _ & Hst & _ & _ & Hoa).
  - reflexivity.
  - simpl. unfold gets. rewrite lookup_singleton_eq. reflexivity.
  - split; [exact Hput|].
    exists obj. rewrite Hget. auto.
Defined.

Lemma CloudflareKVStorage_get_edges_witness :
  CloudflareKVStorage_get memoryKV "test-cb" "2026-01-02T00:00:00.000Z" ∅ = (∅, Return None) /\
  exists obj,
    CloudflareKVStorage_get memoryKV "test-cb" "2026-01-02T00:00:00.000Z"
      {[ "test-cb" := JObj {[ "status" := JStr "CLOSED" ]} ]}
      = ({[ "test-cb" := JObj {[ "status" := JStr "CLOSED" ]} ]}, Return (Some obj)) /\
    obj !! "version" = Some (JStr "2026-01-02T00:00:00.000Z").
Proof.
  split.
  - destruct (CloudflareKVStorage_get_edges memoryKV "test-cb" "2026-01-02T00:00:00.000Z"
                ∅ ∅) as [Hres _].
    exact (Hres JNull eq_refl).
  - destruct (CloudflareKVStorage_get_edges memoryKV "test-cb" "2026-01-02T00:00:00.000Z"
                {[ "test-cb" := JObj {[ "status" := JStr "CLOSED" ]} ]}
                {[ "test-cb" := JObj {[ "status" := JStr "CLOSED" ]} ]}) as [Hres _].
    destruct (Hres (JObj {[ "status" := JStr "CLOSED" ]}) eq_refl) as (obj & Hget & Hver & _).
    + intros ver. vm_compute. discriminate.
    + exists obj. split; [exact Hget | exact Hver].
Defined.

(* ===================================================================== *)
(** * A full cycle, and objects that are never changed *)
(* ===================================================================== *)

Lemma failures_fmap nows : failures (CallRecordFailure <$> nows) = Z.of_nat (length nows).
Proof.
  induction nows as [|now nows IH]; [reflexivity|].
  rewrite fmap_cons, length_cons. cbn [failures]. rewrite IH. lia.
Qed.

Lemma failures_replicate_success n : failures (replicate n CallRecordSuccess) = 0.
Proof. induction n as [|n IH]; simpl; [reflexivity | exact IH]. Qed.

Lemma successes_replicate_success n :
  successes (replicate n CallRecordSuccess) = Z.of_nat n.
Proof. induction n as [|n IH]; simpl; [reflexivity | rewrite IH; lia]. Qed.

(** X21: a full cycle brings a new breaker back to where it started:
    failureThreshold failures open it (the last one at a non-zero time
    [opened]), a gate check at or after [opened] + resetTimeoutMs moves it to
    HALF_OPEN with both counters 0 and openedAt kept, and successThreshold
    successes close it with the state of a new breaker. *)
Theorem full_cycle_returns_to_initial this nows opened probe (m : nat) :
  state this = initialState ->
  Z.of_nat (length nows) + 1 = failureThreshold (options this) ->
  (0 < m)%nat ->
  Z.of_nat m = successThreshold (options this) ->
  opened <> 0 ->
  resetTimeoutMs (options this) <= probe - opened ->
  run ((CallRecordFailure <$> nows) ++ [CallRecordFailure opened]) this =
    assign_state {| status := OPEN; failureCount := 0; successCount := 0;
                    openedAt := Some opened |} this /\
  run ((CallRecordFailure <$> nows) ++ [CallRecordFailure opened] ++
       [CallAssertCanExecute probe]) this =
    assign_state {| status := HALF_OPEN; failureCount := 0; successCount := 0;
                    openedAt := Some opened |} this /\
  run (full_cycle nows opened probe m) this = this.
Proof.
  intros Hinit HF Hm HS Hnz Hreset.
  assert (Hs : status (state this) = CLOSED) by (rewrite Hinit; reflexivity).
  assert (Hfc : failureCount (state this) = 0) by (rewrite Hinit; reflexivity).
  assert (Hopen : run ((CallRecordFailure <$> nows) ++ [CallRecordFailure opened]) this =
            assign_state {| status := OPEN; failureCount := 0; successCount := 0;
                            openedAt := Some opened |} this).
  { rewrite run_app, (run_closed_below (CallRecordFailure <$> nows) this)
      by (rewrite ?failures_fmap, ?Hfc; first [exact Hs | lia]).
    rewrite failures_fmap, Hfc.
    cbn [run]. rewrite perform_closed by reflexivity. simpl.
    replace (failureThreshold (options this) <=? 0 + Z.of_nat (length nows) + 1)
      with true by (symmetry; apply Z.leb_le; lia).
    reflexivity. }
  assert (Hprobe : run ((CallRecordFailure <$> nows) ++ [CallRecordFailure opened] ++
                        [CallAssertCanExecute probe]) this =
            assign_state {| status := HALF_OPEN; failureCount := 0; successCount := 0;
                            openedAt := Some opened |} this).
  { rewrite app_assoc, run_app, Hopen. cbn [run].
    rewrite perform_open by reflexivity. unfold timeout_elapsed, truthy; simpl.
    apply Z.eqb_neq in Hnz. apply Z.leb_le in Hreset. rewrite Hnz, Hreset. reflexivity. }
  split; [exact Hopen|]. split; [exact Hprobe|].
  unfold full_cycle. rewrite !app_assoc, run_app, <- !app_assoc, Hprobe.
  destruct m as [|m']; [lia|]. rewrite replicate_S_end, run_app.
  rewrite (run_half_open_below (replicate m' CallRecordSuccess))
    by (cbn [assign_state state options failureCount successCount status];
        rewrite ?failures_replicate_success, ?successes_replicate_success;
        first [reflexivity | lia]).
  cbn [run]. rewrite perform_half_open by reflexivity.
  cbn [assign_state state options failureCount successCount status openedAt fst].
  rewrite successes_replicate_success.
  replace (successThreshold (options this) <=? 0 + Z.of_nat m' + 1)
    with true by (symmetry; apply Z.leb_le; lia).
  clear -Hinit. destruct this as [st o n h]; simpl in *. subst st. reflexivity.
Qed.

Lemma full_cycle_returns_to_initial_witness :
  run (full_cycle [1000] 1001 2001 2) scenario_breaker = scenario_breaker.
Proof.
  apply (full_cycle_returns_to_initial scenario_breaker [1000] 1001 2001 2);
    first [reflexivity | lia | discriminate].
Defined.

Section ObjectsKept.

Implicit Types (w : Store) (cl : Client).

Lemma client_act_keeps_objects a cl :
  client_wf cl ->
  match a with ActWrite _ _ => False | _ => True end ->
  forall l, l ∈ dom (heap (world cl)) ->
    heap (world (fst (client_act a cl))) !! l = heap (world cl) !! l.
Proof.
  intros [Hwf _] Ha l Hl. destruct a as [c| |i v]; [| |destruct Ha]; simpl.
  - destruct (perform_matches c (world cl) Hwf) as [_ (Hkeep & _)].
    destruct (Objects.perform c (world cl)) as [w' r]; simpl in *. apply Hkeep, Hl.
  - apply lookup_insert_ne, not_eq_sym, fresh_not_allocated, Hl.
Qed.

(** X22: the engine never changes a state object in place.  Through any
    client program of calls and snapshots that itself writes to nothing, every
    object that was in the store keeps its fields: a state replaced by a
    transition, a snapshot taken earlier and the [prev] handed to a hook stay
    as they were. *)
Theorem state_objects_are_never_mutated prog cl :
  client_wf cl ->
  writes_nothing prog ->
  forall l, l ∈ dom (heap (world cl)) ->
    heap (world (fst (client_acts prog cl))) !! l = heap (world cl) !! l.
Proof.
  intros Hwf Hprog. revert cl Hwf.
  induction Hprog as [|a prog Ha _ IH]; intros cl Hwf l Hl; [reflexivity|].
  simpl.
  pose proof (client_act_keeps_objects a cl Hwf Ha l Hl) as Hkeep.
  destruct (client_act_matches a cl Hwf) as (Hwf' & _).
  destruct (client_act a cl) as [cl' o]; simpl in *.
  assert (Hl' : l ∈ dom (heap (world cl'))).
  { apply elem_of_dom. rewrite Hkeep. apply elem_of_dom, Hl. }
  specialize (IH cl' Hwf' l Hl').
  destruct (client_acts prog cl') as [final os]; simpl in *.
  rewrite IH. exact Hkeep.
Qed.

End ObjectsKept.

Lemma state_objects_are_never_mutated_witness :
  heap (world (fst (client_acts
                      [ActGetState; ActCall (CallRecordFailure 1000);
                       ActCall (CallRecordFailure 1001); ActGetState]
                      scenario_client)))
    !! state_ref (self (world scenario_client)) = Some initialState.
Proof.
  rewrite (state_objects_are_never_mutated
             [ActGetState; ActCall (CallRecordFailure 1000);
              ActCall (CallRecordFailure 1001); ActGetState]
             scenario_client scenario_client_wf).
  - apply lookup_insert_eq.
  - repeat constructor.
  - apply dom_alloc_new.
Defined.
